(** * landlock_sandboxer.c: the execute allow-list gate

    A shallow embedding of [src/sandboxer/landlock_sandboxer.c] and the
    properties of its specification.

    The C code is a straight-line constructor that talks to the operating
    system.  It is embedded as follows.

    - A C string is the [string] of its bytes before the terminator, so it
      holds no NUL ([cstring]); [strcmp], [strtok_r] and [snprintf] are
      written out as the C library defines them.
    - The operating system is a record [OS] of answers: what each system
      or library call returns for each argument.  The program sees nothing
      else of the machine, and the answers do not change during a run.
    - The program is a computation in [M]: it emits the calls it makes, in
      order, as a list of [event]s, and either returns ([Done]) or leaves
      through [_exit] ([Exited]).
    - The kernel is a state machine ([kernel_step]) that consumes the
      emitted calls: it holds the ruleset under construction, the
      no-new-privileges flag and the Landlock domain of the process.  It
      is not code of the program; it is the model the program is judged
      against where a property speaks of the allowed set. *)

From Stdlib Require Import ZArith String Ascii List Lia Bool.
From stdpp Require Import base gmap sets list strings.
From Equations Require Import Equations.
Import ListNotations.

#[local] Set Warnings "-clear-no-such-hyp".
#[local] Open Scope string_scope.
#[local] Open Scope list_scope.
#[local] Open Scope Z_scope.

(** ** C strings and the C library *)

Definition NUL : ascii := Ascii.zero.

(** A C string holds no NUL before its terminator. *)
Fixpoint cstring (s : string) : bool :=
  match s with
  | EmptyString => true
  | String c s' => negb (Ascii.eqb c NUL) && cstring s'
  end.

Definition uchar (c : ascii) : Z := Z.of_N (N_of_ascii c).

(** [strcmp]: the difference of the first two bytes that differ, read as
    [unsigned char]; the terminator is the byte 0. *)
Fixpoint strcmp (a b : string) : Z :=
  match a, b with
  | EmptyString, EmptyString => 0
  | EmptyString, String d _ => 0 - uchar d
  | String c _, EmptyString => uchar c - 0
  | String c a', String d b' =>
      if Ascii.eqb c d
      then (if Ascii.eqb c NUL then 0 else strcmp a' b')
      else uchar c - uchar d
  end.

(** Membership of a byte in the delimiter string of [strtok_r]. *)
Fixpoint is_delim (delim : string) (c : ascii) : bool :=
  match delim with
  | EmptyString => false
  | String d delim' => if Ascii.eqb c d then true else is_delim delim' c
  end.

(** [s + strspn(s, delim)]: [s] without its leading delimiters. *)
Fixpoint skip_delims (delim s : string) : string :=
  match s with
  | EmptyString => EmptyString
  | String c s' => if is_delim delim c then skip_delims delim s' else s
  end.

(** The first [strcspn(s, delim)] bytes of [s], and what follows them. *)
Fixpoint break_at_delim (delim s : string) : string * string :=
  match s with
  | EmptyString => (EmptyString, EmptyString)
  | String c s' =>
      if is_delim delim c then (EmptyString, s)
      else let '(tok, e) := break_at_delim delim s' in (String c tok, e)
  end.

(** One call of [strtok_r] on the text at the scan position: [None] for
    a NULL return, else the token and the new [saveptr]. *)
Definition strtok_r (s delim : string) : option (string * string) :=
  match skip_delims delim s with
  | EmptyString => None
  | s1 =>
      let '(tok, e) := break_at_delim delim s1 in
      match e with
      | EmptyString => Some (tok, e)
      | String _ e' => Some (tok, e')
      end
  end.

(** The text of the escape [\n]. *)
Definition LF : string := String (ascii_of_nat 10) EmptyString.

Definition INT_MAX : Z := 2147483647.

(** [PATH_MAX] of <limits.h> on Linux. *)
Definition PATH_MAX : Z := 4096.

(** The first [n] bytes of a string. *)
Fixpoint take_bytes (n : nat) (s : string) : string :=
  match n, s with
  | O, _ => EmptyString
  | S _, EmptyString => EmptyString
  | S n', String c s' => String c (take_bytes n' s')
  end.

(** [snprintf(buf, size, "%s/%s", dir, name)]: the buffer holds at most
    [size - 1] bytes of the text; the return value is the length of the
    whole text, or a negative number when that does not fit an [int]. *)
Definition snprintf (size : Z) (dir name : string) : string * Z :=
  let text := dir +:+ "/" +:+ name in
  let len := Z.of_nat (String.length text) in
  (take_bytes (Z.to_nat (size - 1)) text,
   if len >? INT_MAX then -1 else len).

(** ** <sys/stat.h> *)

Definition S_IFMT : Z := 61440.   (* 0170000 *)
Definition S_IFREG : Z := 32768.  (* 0100000 *)
Definition S_IXUSR : Z := 64.     (* 0100 *)
Definition S_IXGRP : Z := 8.      (* 0010 *)
Definition S_IXOTH : Z := 1.      (* 0001 *)

Definition S_ISREG (st_mode : Z) : bool := Z.land st_mode S_IFMT =? S_IFREG.

Definition any_exec_bit (st_mode : Z) : bool :=
  negb (Z.land st_mode (Z.lor S_IXUSR (Z.lor S_IXGRP S_IXOTH)) =? 0).

(** ** The denylist *)

Definition DENIED_SHELLS : list string :=
  [ "/bin/bash";      "/usr/bin/bash";
    "/bin/sh";        "/usr/bin/sh";
    "/bin/dash";      "/usr/bin/dash";
    "/bin/zsh";       "/usr/bin/zsh";
    "/bin/fish";      "/usr/bin/fish";
    "/bin/ksh";       "/usr/bin/ksh";
    "/bin/csh";       "/usr/bin/csh";
    "/bin/tcsh";      "/usr/bin/tcsh";
    "/bin/ash";       "/usr/bin/ash";
    "/bin/busybox";   "/usr/bin/busybox";
    "/bin/mksh";      "/usr/bin/mksh";
    "/bin/rbash";     "/usr/bin/rbash";
    "/bin/elvish";    "/usr/bin/elvish";
    "/bin/nu";        "/usr/bin/nu";
    "/bin/pwsh";      "/usr/bin/pwsh";
    "/bin/xonsh";     "/usr/bin/xonsh" ].

(** The loop of [is_denied] from the entry [s] points at to the NULL. *)
Fixpoint is_denied_from (s : list string) (path resolved : string) : bool :=
  match s with
  | [] => false
  | entry :: s' =>
      if (strcmp path entry =? 0) || (strcmp resolved entry =? 0)
      then true
      else is_denied_from s' path resolved
  end.

Definition is_denied (path resolved : string) : bool :=
  is_denied_from DENIED_SHELLS path resolved.

(** ** The operating system, as the program sees it *)

(** What each call answers.  A descriptor or a return value is a [Z]
    ([-1] and the like on failure); a pointer result is an [option]. *)
Record OS : Type := {
  (** [syscall(SYS_landlock_create_ruleset, ...)]: the ruleset descriptor. *)
  os_create_ruleset : Z;
  (** [getenv("PATH")]. *)
  os_PATH : option string;
  (** Whether [strdup] finds memory. *)
  os_strdup : bool;
  (** [opendir] and the names [readdir] then yields, in order. *)
  os_opendir : string -> option (list string);
  (** [stat]: [st_mode] when it returns 0. *)
  os_stat : string -> option Z;
  (** [realpath] into a [PATH_MAX] buffer. *)
  os_realpath : string -> option string;
  (** [open(path, O_PATH | O_CLOEXEC)]: the descriptor. *)
  os_open : string -> Z;
  (** The file (device and inode) a descriptor opened on the path names. *)
  os_file : string -> Z;
  (** [syscall(SYS_landlock_add_rule, ...)] for a descriptor on that file. *)
  os_add_rule : Z -> Z;
  (** [prctl(PR_SET_NO_NEW_PRIVS, 1, 0, 0, 0)]. *)
  os_prctl : Z;
  (** [syscall(SYS_landlock_restrict_self, ruleset_fd, 0)]. *)
  os_restrict_self : Z;
  (** The no-new-privileges flag of the process when the library loads. *)
  os_no_new_privs : bool
}.

(** The calls the program makes, with their arguments and answers. *)
Inductive event : Type :=
| Ev_landlock_create_ruleset (ret : Z)
| Ev_getenv (name : string) (value : option string)
| Ev_strdup (s : string) (ok : bool)
| Ev_opendir (dir : string) (ok : bool)
| Ev_readdir (dir d_name : string)
| Ev_closedir (dir : string)
| Ev_stat (path : string) (st_mode : option Z)
| Ev_realpath (path : string) (resolved : option string)
| Ev_open (path : string) (fd : Z)
| Ev_landlock_add_rule (ruleset_fd file ret : Z)
| Ev_close (fd : Z)
| Ev_free
| Ev_prctl_no_new_privs (ret : Z)
| Ev_landlock_restrict_self (ruleset_fd ret : Z)
| Ev_perror (s : string)
| Ev_fprintf_stderr (text : string)
| Ev_exit (status : Z).

(** ** Computations: a trace of calls, then a return or an [_exit] *)

Inductive outcome (A : Type) : Type :=
| Done (a : A)
| Exited (status : Z).
Arguments Done {A} a.
Arguments Exited {A} status.

Definition M (A : Type) : Type := (list event * outcome A)%type.

Definition ret {A : Type} (a : A) : M A := ([], Done a).

Definition bind {A B : Type} (m : M A) (f : A -> M B) : M B :=
  match m with
  | (t, Done a) => let '(t', r) := f a in (t ++ t', r)
  | (t, Exited status) => (t, Exited status)
  end.

Declare Scope sandbox_scope.
Delimit Scope sandbox_scope with sandbox.
Notation "x <- c ;; k" := (bind c (fun x => k))
  (at level 100, c at next level, right associativity) : sandbox_scope.
Notation "c ;; k" := (bind c (fun _ => k))
  (at level 100, right associativity) : sandbox_scope.
#[local] Open Scope sandbox_scope.

(** A call that answers [r]. *)
Definition call {A : Type} (e : event) (r : A) : M A := ([e], Done r).

Definition _exit {A : Type} (status : Z) : M A :=
  ([Ev_exit status], Exited status).

(** [continue] in a loop body. *)
Definition continue : M unit := ret tt.

Fixpoint for_each {A : Type} (l : list A) (body : A -> M unit) : M unit :=
  match l with
  | [] => ret tt
  | x :: l' => body x ;; for_each l' body
  end.

(** ** The directories of PATH *)

Definition inspect {A : Type} (x : A) : {y : A | x = y} := exist _ x eq_refl.

(** The values [dir] takes in
    [for (dir = strtok_r(path_copy, ":", &saveptr); dir != NULL;
          dir = strtok_r(NULL, ":", &saveptr))],
    in order; [s] is the text from the scan position on. *)
Equations? path_dirs (s : string) : list string by wf (String.length s) lt :=
  path_dirs s with inspect (strtok_r s ":") => {
    | exist _ (Some (dir, saveptr)) _ => dir :: path_dirs saveptr;
    | exist _ None _ => [] }.
Proof.
  (* the new scan position is strictly closer to the end of the text *)
  assert (Hskip : forall delim t,
    (String.length (skip_delims delim t) <= String.length t)%nat).
  { induction t as [|c t IH]; simpl; [lia|].
    destruct (is_delim delim c); simpl; lia. }
  assert (Hbreak : forall delim t,
    (String.length (snd (break_at_delim delim t)) <= String.length t)%nat).
  { induction t as [|c t IH]; simpl; [lia|].
    destruct (is_delim delim c); simpl; [lia|].
    destruct (break_at_delim delim t); simpl in *; lia. }
  match goal with H : strtok_r s ":" = Some _ |- _ => revert H end.
  unfold strtok_r. specialize (Hskip ":" s).
  destruct (skip_delims ":" s) as [|c s1]; [discriminate|].
  specialize (Hbreak ":" (String c s1)).
  destruct (break_at_delim ":" (String c s1)) as [t e].
  simpl in Hbreak, Hskip.
  destruct e; intros [= <- <-]; simpl in *; lia.
Qed.

(** ** The program *)

Section Sandboxer.
Variable os : OS.

Definition landlock_create_ruleset : M Z :=
  call (Ev_landlock_create_ruleset (os_create_ruleset os))
       (os_create_ruleset os).

Definition getenv_PATH : M (option string) :=
  call (Ev_getenv "PATH" (os_PATH os)) (os_PATH os).

Definition strdup (s : string) : M (option string) :=
  call (Ev_strdup s (os_strdup os))
       (if os_strdup os then Some s else None).

Definition opendir (dir : string) : M (option (list string)) :=
  call (Ev_opendir dir (match os_opendir os dir with
                        | Some _ => true
                        | None => false
                        end))
       (os_opendir os dir).

Definition readdir (dir d_name : string) : M unit :=
  call (Ev_readdir dir d_name) tt.

Definition closedir (dir : string) : M unit := call (Ev_closedir dir) tt.

Definition stat (path : string) : M (option Z) :=
  call (Ev_stat path (os_stat os path)) (os_stat os path).

Definition realpath (path : string) : M (option string) :=
  call (Ev_realpath path (os_realpath os path)) (os_realpath os path).

Definition open (path : string) : M Z :=
  call (Ev_open path (os_open os path)) (os_open os path).

(** The rule names the file behind [parent_fd], here the one [path]
    was opened on. *)
Definition landlock_add_rule (ruleset_fd : Z) (path : string) : M Z :=
  call (Ev_landlock_add_rule ruleset_fd (os_file os path)
                             (os_add_rule os (os_file os path)))
       (os_add_rule os (os_file os path)).

Definition close (fd : Z) : M unit := call (Ev_close fd) tt.

Definition free : M unit := call Ev_free tt.

Definition prctl_no_new_privs : M Z :=
  call (Ev_prctl_no_new_privs (os_prctl os)) (os_prctl os).

Definition landlock_restrict_self (ruleset_fd : Z) : M Z :=
  call (Ev_landlock_restrict_self ruleset_fd (os_restrict_self os))
       (os_restrict_self os).

Definition perror (s : string) : M unit := call (Ev_perror s) tt.

Definition fprintf_stderr (text : string) : M unit :=
  call (Ev_fprintf_stderr text) tt.

Definition add_exec_rule (ruleset_fd : Z) (path : string) : M Z :=
  fd <- open path ;;
  if fd <? 0 then ret (-1) else
  r <- landlock_add_rule ruleset_fd path ;;
  close fd ;;
  ret r.

(** The body of the [readdir] loop for one entry. *)
Definition scan_entry (ruleset_fd : Z) (dir d_name : string) : M unit :=
  let '(fullpath, n) := snprintf PATH_MAX dir d_name in
  if (n <? 0) || (n >=? PATH_MAX) then continue else
  st <- stat fullpath ;;
  match st with
  | None => continue
  | Some st_mode =>
      if negb (S_ISREG st_mode) then continue else
      if Z.land st_mode (Z.lor S_IXUSR (Z.lor S_IXGRP S_IXOTH)) =? 0
      then continue else
      r <- realpath fullpath ;;
      match r with
      | None => continue
      | Some resolved =>
          if is_denied fullpath resolved then continue else
          add_exec_rule ruleset_fd fullpath ;;
          ret tt
      end
  end.

(** The body of the [strtok_r] loop for one directory. *)
Definition scan_dir (ruleset_fd : Z) (dir : string) : M unit :=
  d <- opendir dir ;;
  match d with
  | None => continue
  | Some entries =>
      for_each entries (fun d_name =>
        readdir dir d_name ;;
        scan_entry ruleset_fd dir d_name) ;;
      closedir dir
  end.

Definition apply_sandbox : M unit :=
  ruleset_fd <- landlock_create_ruleset ;;
  if ruleset_fd <? 0 then
    perror "landlock_sandboxer: create_ruleset" ;;
    _exit 126
  else
  path_env <- getenv_PATH ;;
  match path_env with
  | None | Some EmptyString =>
      close ruleset_fd ;;
      fprintf_stderr ("landlock_sandboxer: PATH is empty" +:+ LF) ;;
      _exit 126
  | Some path_env =>
      path_copy <- strdup path_env ;;
      match path_copy with
      | None => close ruleset_fd ;; _exit 126
      | Some path_copy =>
          for_each (path_dirs path_copy) (scan_dir ruleset_fd) ;;
          free ;;
          r <- prctl_no_new_privs ;;
          if negb (r =? 0) then
            perror "landlock_sandboxer: prctl(NO_NEW_PRIVS)" ;;
            close ruleset_fd ;;
            _exit 126
          else
          r <- landlock_restrict_self ruleset_fd ;;
          if negb (r =? 0) then
            perror "landlock_sandboxer: restrict_self" ;;
            close ruleset_fd ;;
            _exit 126
          else
          close ruleset_fd
      end
  end.

End Sandboxer.

(** ** The kernel *)

(** Modelled from the spec: the kernel's side of [landlock_add_rule],
    [prctl(PR_SET_NO_NEW_PRIVS)] and [landlock_restrict_self], which is
    not in the repository.  By the data model of the specification the
    ruleset accumulates entries, each naming one file, and none is ever
    removed; the privilege lock can be set and never cleared; the
    enforcement state goes from unrestricted to restricted, once. *)
Record kernel : Type := {
  (** The files the ruleset under construction lets execute. *)
  ruleset : gset Z;
  no_new_privs : bool;
  (** [None]: the process is unrestricted.  [Some A]: it is restricted,
      and may execute the files of [A] only. *)
  domain : option (gset Z)
}.

(** Modelled from the spec: what a call that succeeded (answer 0) does to
    the state above; a call that failed, and every other call, leaves it
    as it is. *)
Definition kernel_step (k : kernel) (e : event) : kernel :=
  match e with
  | Ev_landlock_add_rule _ file ret =>
      if ret =? 0
      then {| ruleset := {[file]} ∪ ruleset k;
              no_new_privs := no_new_privs k;
              domain := domain k |}
      else k
  | Ev_prctl_no_new_privs ret =>
      if ret =? 0
      then {| ruleset := ruleset k;
              no_new_privs := true;
              domain := domain k |}
      else k
  | Ev_landlock_restrict_self _ ret =>
      if ret =? 0
      then {| ruleset := ruleset k;
              no_new_privs := no_new_privs k;
              domain := Some (ruleset k) |}
      else k
  | _ => k
  end.

Definition kernel_run (k : kernel) (t : list event) : kernel :=
  fold_left kernel_step t k.

Definition boot (os : OS) : kernel :=
  {| ruleset := ∅; no_new_privs := os_no_new_privs os; domain := None |}.

(** ** A run of the constructor *)

Definition trace (os : OS) : list event := fst (apply_sandbox os).
Definition result (os : OS) : outcome unit := snd (apply_sandbox os).
Definition final (os : OS) : kernel := kernel_run (boot os) (trace os).

(** ** What a trace shows *)

(** The paths [add_exec_rule] was called on: it opens its argument first,
    and nothing else in the program opens a file. *)
Definition rule_attempts (t : list event) : list string :=
  flat_map (fun e => match e with Ev_open path _ => [path] | _ => [] end) t.

Definition opened_dirs (t : list event) : list string :=
  flat_map (fun e => match e with Ev_opendir dir _ => [dir] | _ => [] end) t.

(** What was written to the error stream. *)
Definition is_diagnostic (e : event) : bool :=
  match e with
  | Ev_perror _ | Ev_fprintf_stderr _ => true
  | _ => false
  end.

Definition diagnostics (t : list event) : list event :=
  List.filter is_diagnostic t.

(** A step of the search-path enumeration or a rule addition. *)
Definition is_enumeration (e : event) : bool :=
  match e with
  | Ev_opendir _ _ | Ev_readdir _ _ | Ev_closedir _
  | Ev_stat _ _ | Ev_realpath _ _ => true
  | _ => false
  end.

Definition is_rule_addition (e : event) : bool :=
  match e with
  | Ev_open _ _ | Ev_landlock_add_rule _ _ _ => true
  | _ => false
  end.

(** The call that commits the ruleset. *)
Definition is_commit (e : event) : bool :=
  match e with
  | Ev_landlock_restrict_self _ _ => true
  | _ => false
  end.

(** The path named by a call that takes one. *)
Definition event_path (e : event) : option string :=
  match e with
  | Ev_stat path _ | Ev_realpath path _ | Ev_open path _ => Some path
  | _ => None
  end.

(** The calls of the enumeration loops: enumeration steps, rule
    additions, and the [close] that ends a rule addition. *)
Definition is_scan_event (e : event) : bool :=
  is_enumeration e || is_rule_addition e
  || match e with Ev_close _ => true | _ => false end.

(** The calls [scan_entry] can make. *)
Definition is_entry_event (e : event) : bool :=
  match e with
  | Ev_stat _ _ | Ev_realpath _ _ | Ev_open _ _
  | Ev_landlock_add_rule _ _ _ | Ev_close _ => true
  | _ => false
  end.

(** The files the kernel accepted a rule for. *)
Definition granted (t : list event) : gset Z :=
  list_to_set
    (flat_map (fun e => match e with
                        | Ev_landlock_add_rule _ file ret =>
                            if ret =? 0 then [file] else []
                        | _ => []
                        end) t).

(** ** Words of the specification *)

(** A path the pipeline has to attempt a rule for: short enough for the
    buffer, a regular file with an execute bit, with a canonical form, and
    not denied. *)
Definition allowable (os : OS) (path : string) : bool :=
  (Z.of_nat (String.length path) <? PATH_MAX)
  && match os_stat os path with
     | Some st_mode =>
         S_ISREG st_mode && any_exec_bit st_mode
         && match os_realpath os path with
            | Some resolved => negb (is_denied path resolved)
            | None => false
            end
     | None => false
     end.

(** The components of a colon-separated value, empty ones included. *)
Fixpoint components (s : string) : list string :=
  match s with
  | EmptyString => [EmptyString]
  | String c s' =>
      if Ascii.eqb c ":" then EmptyString :: components s'
      else match components s' with
           | first :: others => String c first :: others
           | [] => [String c EmptyString]
           end
  end.

Definition nonempty (s : string) : bool :=
  match s with EmptyString => false | String _ _ => true end.

(** The calls of the two enumeration loops over the text [s] of PATH. *)
Definition enumeration (os : OS) (ruleset_fd : Z) (s : string) : list event :=
  flat_map (fun dir => fst (scan_dir os ruleset_fd dir)) (path_dirs s).

(** The ways a run of the constructor can go: the calls it makes and how
    it ends, by the answers of the machine.  [Start], [RulesetOpen],
    [Enumerating], [RulesAdded], [Locked], [Restricted] and [Aborted] of
    the specification are the points along these traces. *)
Inductive run_of (os : OS) : list event -> outcome unit -> Prop :=
| Run_no_ruleset :
    os_create_ruleset os < 0 ->
    run_of os
      [Ev_landlock_create_ruleset (os_create_ruleset os);
       Ev_perror "landlock_sandboxer: create_ruleset";
       Ev_exit 126]
      (Exited 126)
| Run_no_PATH :
    0 <= os_create_ruleset os ->
    os_PATH os = None \/ os_PATH os = Some EmptyString ->
    run_of os
      [Ev_landlock_create_ruleset (os_create_ruleset os);
       Ev_getenv "PATH" (os_PATH os);
       Ev_close (os_create_ruleset os);
       Ev_fprintf_stderr ("landlock_sandboxer: PATH is empty" +:+ LF);
       Ev_exit 126]
      (Exited 126)
| Run_no_memory (s : string) :
    0 <= os_create_ruleset os ->
    os_PATH os = Some s -> s <> EmptyString ->
    os_strdup os = false ->
    run_of os
      [Ev_landlock_create_ruleset (os_create_ruleset os);
       Ev_getenv "PATH" (Some s);
       Ev_strdup s false;
       Ev_close (os_create_ruleset os);
       Ev_exit 126]
      (Exited 126)
| Run_no_lock (s : string) :
    0 <= os_create_ruleset os ->
    os_PATH os = Some s -> s <> EmptyString ->
    os_strdup os = true ->
    os_prctl os <> 0 ->
    run_of os
      ([Ev_landlock_create_ruleset (os_create_ruleset os);
        Ev_getenv "PATH" (Some s);
        Ev_strdup s true]
       ++ enumeration os (os_create_ruleset os) s
       ++ [Ev_free;
           Ev_prctl_no_new_privs (os_prctl os);
           Ev_perror "landlock_sandboxer: prctl(NO_NEW_PRIVS)";
           Ev_close (os_create_ruleset os);
           Ev_exit 126])
      (Exited 126)
| Run_no_commit (s : string) :
    0 <= os_create_ruleset os ->
    os_PATH os = Some s -> s <> EmptyString ->
    os_strdup os = true ->
    os_prctl os = 0 ->
    os_restrict_self os <> 0 ->
    run_of os
      ([Ev_landlock_create_ruleset (os_create_ruleset os);
        Ev_getenv "PATH" (Some s);
        Ev_strdup s true]
       ++ enumeration os (os_create_ruleset os) s
       ++ [Ev_free;
           Ev_prctl_no_new_privs 0;
           Ev_landlock_restrict_self (os_create_ruleset os)
                                     (os_restrict_self os);
           Ev_perror "landlock_sandboxer: restrict_self";
           Ev_close (os_create_ruleset os);
           Ev_exit 126])
      (Exited 126)
| Run_restricted (s : string) :
    0 <= os_create_ruleset os ->
    os_PATH os = Some s -> s <> EmptyString ->
    os_strdup os = true ->
    os_prctl os = 0 ->
    os_restrict_self os = 0 ->
    run_of os
      ([Ev_landlock_create_ruleset (os_create_ruleset os);
        Ev_getenv "PATH" (Some s);
        Ev_strdup s true]
       ++ enumeration os (os_create_ruleset os) s
       ++ [Ev_free;
           Ev_prctl_no_new_privs 0;
           Ev_landlock_restrict_self (os_create_ruleset os) 0;
           Ev_close (os_create_ruleset os)])
      (Done tt).

(** ** A small machine to run the program on

    Two directories.  [/tmp/bin] holds a tool, a link [ls] to [/bin/ls],
    a link [myshell] to a shell of the denylist, a file without execute
    bit, a name whose file is gone, a dangling link, a file that vanishes
    before it is opened and a file the kernel refuses a rule for.  [/bin]
    holds [sh] and [ls].  PATH names both, names a directory that does not
    exist, and has empty components. *)

Fixpoint assoc {A : Type} (table : list (string * A)) (key : string)
  : option A :=
  match table with
  | [] => None
  | (k, v) :: table' => if String.eqb key k then Some v else assoc table' key
  end.

Definition demo_opendir (dir : string) : option (list string) :=
  assoc [("/tmp/bin",
          ["."; "tool"; "ls"; "myshell"; "README"; "gone"; "dangling";
           "racy"; "odd"]);
         ("/bin", [".."; "sh"; "ls"])]
        dir.

Definition demo_stat (path : string) : option Z :=
  assoc [("/tmp/bin/.", 16877);         (* 040755 *)
         ("/tmp/bin/tool", 33261);      (* 0100755 *)
         ("/tmp/bin/ls", 33261);
         ("/tmp/bin/myshell", 33261);
         ("/tmp/bin/README", 33188);    (* 0100644 *)
         ("/tmp/bin/dangling", 33216);  (* 0100700 *)
         ("/tmp/bin/racy", 33225);      (* 0100711 *)
         ("/tmp/bin/odd", 33193);       (* 0100651 *)
         ("/bin/..", 16877);
         ("/bin/sh", 33261);
         ("/bin/ls", 33261)]
        path.

Definition demo_realpath (path : string) : option string :=
  assoc [("/tmp/bin/.", "/tmp/bin");
         ("/tmp/bin/tool", "/tmp/bin/tool");
         ("/tmp/bin/ls", "/bin/ls");
         ("/tmp/bin/myshell", "/bin/bash");
         ("/tmp/bin/README", "/tmp/bin/README");
         ("/tmp/bin/racy", "/tmp/bin/racy");
         ("/tmp/bin/odd", "/tmp/bin/odd");
         ("/bin/..", "/");
         ("/bin/sh", "/bin/dash");
         ("/bin/ls", "/bin/ls")]
        path.

Definition demo_file (path : string) : Z :=
  default 0 (assoc [("/tmp/bin/tool", 1001);
                    ("/tmp/bin/ls", 2002);
                    ("/bin/ls", 2002);
                    ("/tmp/bin/odd", 3003)]
                   path).

Definition demo_os : OS :=
  {| os_create_ruleset := 3;
     os_PATH := Some ":/tmp/bin:/nonexistent::/bin";
     os_strdup := true;
     os_opendir := demo_opendir;
     os_stat := demo_stat;
     os_realpath := demo_realpath;
     os_open := fun path => if demo_file path =? 0 then -1 else 4;
     os_file := demo_file;
     os_add_rule := fun file => if file =? 3003 then -1 else 0;
     os_prctl := 0;
     os_restrict_self := 0;
     os_no_new_privs := false |}.

(** The same machine with other answers to the calls that can be fatal. *)
Definition demo_with (create_ruleset : Z) (path : option string)
  (strdup_ok : bool) (prctl_ret restrict_ret : Z) : OS :=
  {| os_create_ruleset := create_ruleset;
     os_PATH := path;
     os_strdup := strdup_ok;
     os_opendir := os_opendir demo_os;
     os_stat := os_stat demo_os;
     os_realpath := os_realpath demo_os;
     os_open := os_open demo_os;
     os_file := os_file demo_os;
     os_add_rule := os_add_rule demo_os;
     os_prctl := prctl_ret;
     os_restrict_self := restrict_ret;
     os_no_new_privs := false |}.

(** A directory name of 4095 bytes, for paths that do not fit the buffer. *)
Fixpoint fill (n : nat) (c : ascii) : string :=
  match n with
  | O => EmptyString
  | S n' => String c (fill n' c)
  end.

Definition long_dir : string := "/" +:+ fill 4094 "d".

(** The machine [os] with another value of PATH. *)
Definition with_PATH (os : OS) (path : option string) : OS :=
  {| os_create_ruleset := os_create_ruleset os;
     os_PATH := path;
     os_strdup := os_strdup os;
     os_opendir := os_opendir os;
     os_stat := os_stat os;
     os_realpath := os_realpath os;
     os_open := os_open os;
     os_file := os_file os;
     os_add_rule := os_add_rule os;
     os_prctl := os_prctl os;
     os_restrict_self := os_restrict_self os;
     os_no_new_privs := os_no_new_privs os |}.

(** ** Calls in their context

    A property of the calls of a trace by their place in it: [P before x
    after] for every way to cut the trace into the calls before [x], the
    call [x] and the calls after it. *)

Definition everywhere (P : list event -> event -> list event -> Prop)
  (t : list event) : Prop :=
  forall before x after, t = before ++ x :: after -> P before x after.

(** [P] looks at the calls next to [x] only: it still holds when the
    trace grows at either end. *)
Definition extensible (P : list event -> event -> list event -> Prop) : Prop :=
  forall l r before x after,
    P before x after -> P (l ++ before) x (after ++ r).

(** Around an [open]: the [stat] and the [realpath] of the same path that
    succeeded just before it, the answer of the machine, and after an
    [open] that succeeded the rule addition on [ruleset_fd] and the
    [close] of the descriptor. *)
Definition open_context (os : OS) (ruleset_fd : Z)
  (before : list event) (x : event) (after : list event) : Prop :=
  forall path fd, x = Ev_open path fd ->
    (exists b st_mode resolved,
       before = b ++ [Ev_stat path (Some st_mode);
                      Ev_realpath path (Some resolved)]) /\
    fd = os_open os path /\
    (0 <= fd ->
     exists rest,
       after = Ev_landlock_add_rule ruleset_fd (os_file os path)
                 (os_add_rule os (os_file os path))
               :: Ev_close fd :: rest).

(** Around a [landlock_add_rule]: the [open] that succeeded just before
    it, and the [close] of that descriptor just after it. *)
Definition add_rule_context (os : OS) (ruleset_fd : Z)
  (before : list event) (x : event) (after : list event) : Prop :=
  forall rfd file ret, x = Ev_landlock_add_rule rfd file ret ->
    exists b path rest,
      before = b ++ [Ev_open path (os_open os path)] /\
      0 <= os_open os path /\
      rfd = ruleset_fd /\ file = os_file os path /\
      ret = os_add_rule os file /\
      after = Ev_close (os_open os path) :: rest.

(** A call made on behalf of an entry of [dir] while [dir] is open: the
    [readdir] that yields the entry, or a call of [scan_entry]. *)
Definition in_directory (dir : string) (e : event) : bool :=
  match e with
  | Ev_readdir d _ => String.eqb d dir
  | _ => is_entry_event e
  end.

(** After an [opendir] that succeeded: calls for entries of that
    directory, then its [closedir]. *)
Definition opendir_context (before : list event) (x : event)
  (after : list event) : Prop :=
  forall dir, x = Ev_opendir dir true ->
    exists mid rest,
      after = mid ++ Ev_closedir dir :: rest /\
      forallb (in_directory dir) mid = true.

(** Before a [readdir] or a [closedir]: the [opendir] of that directory
    that succeeded, then calls for its entries only. *)
Definition handle_context (before : list event) (x : event)
  (after : list event) : Prop :=
  forall dir,
    x = Ev_closedir dir \/ (exists d_name, x = Ev_readdir dir d_name) ->
    exists b mid,
      before = b ++ Ev_opendir dir true :: mid /\
      forallb (in_directory dir) mid = true.

(** A call on a directory handle. *)
Definition is_directory_call (e : event) : bool :=
  match e with
  | Ev_opendir _ _ | Ev_readdir _ _ | Ev_closedir _ => true
  | _ => false
  end.

(** After a [readdir]: the calls of [scan_entry] for the entry it
    yielded. *)
Definition readdir_context (os : OS) (ruleset_fd : Z)
  (before : list event) (x : event) (after : list event) : Prop :=
  forall dir d_name, x = Ev_readdir dir d_name ->
    exists rest,
      after = fst (scan_entry os ruleset_fd dir d_name) ++ rest.

(** ** Two more machines *)

(** [/tmp/bin/mysh] is a hard link to [/bin/bash]: another name, the same
    file (7007).  Its canonical path is its own. *)
Definition hardlink_os : OS :=
  {| os_create_ruleset := 3;
     os_PATH := Some "/tmp/bin";
     os_strdup := true;
     os_opendir := assoc [("/tmp/bin", ["mysh"])];
     os_stat := assoc [("/tmp/bin/mysh", 33261); ("/bin/bash", 33261)];
     os_realpath := assoc [("/tmp/bin/mysh", "/tmp/bin/mysh");
                           ("/bin/bash", "/bin/bash")];
     os_open := fun _ => 4;
     os_file := fun path =>
       default 0 (assoc [("/tmp/bin/mysh", 7007); ("/bin/bash", 7007)] path);
     os_add_rule := fun _ => 0;
     os_prctl := 0;
     os_restrict_self := 0;
     os_no_new_privs := true |}.

(** A directory name of 4093 bytes: with [/x] the path has 4095 bytes,
    the longest that fits the buffer with its terminator. *)
Definition edge_dir : string := "/" +:+ fill 4092 "d".

(** * Properties *)

(** ** [strcmp] and the denylist *)

Lemma uchar_inj c d : uchar c = uchar d -> c = d.
Proof.
  unfold uchar. intros H. apply N2Z.inj in H.
  rewrite <- (ascii_N_embedding c), <- (ascii_N_embedding d). now f_equal.
Qed.

Lemma uchar_NUL c : uchar c = 0 -> c = NUL.
Proof. intros H. apply uchar_inj. exact H. Qed.

Lemma ascii_eqb_false c d : Ascii.eqb c d = false -> c <> d.
Proof. intros H ->. rewrite Ascii.eqb_refl in H. discriminate. Qed.

Lemma strcmp_refl a : strcmp a a = 0.
Proof.
  induction a as [|c a IH]; simpl; [reflexivity|].
  rewrite Ascii.eqb_refl. now destruct (Ascii.eqb c NUL).
Qed.

(** On C strings [strcmp] answers 0 for equal strings only. *)
Lemma strcmp_0_eq a b :
  cstring a = true -> cstring b = true -> strcmp a b = 0 -> a = b.
Proof.
  revert b. induction a as [|c a IH]; intros [|d b]; simpl; intros Ha Hb H.
  - reflexivity.
  - apply andb_prop in Hb as [Hd _]. apply negb_true_iff in Hd.
    apply ascii_eqb_false in Hd. exfalso. apply Hd, uchar_NUL. lia.
  - apply andb_prop in Ha as [Hc _]. apply negb_true_iff in Hc.
    apply ascii_eqb_false in Hc. exfalso. apply Hc, uchar_NUL. lia.
  - apply andb_prop in Ha as [Hc Ha]. apply andb_prop in Hb as [_ Hb].
    destruct (Ascii.eqb c d) eqn:Hcd.
    + apply Ascii.eqb_eq in Hcd. subst d.
      apply negb_true_iff in Hc. rewrite Hc in H.
      f_equal. now apply IH.
    + apply ascii_eqb_false in Hcd. exfalso. apply Hcd, uchar_inj. lia.
Qed.

Lemma strcmp_eqb a b :
  cstring a = true -> cstring b = true ->
  (strcmp a b =? 0) = String.eqb a b.
Proof.
  intros Ha Hb. destruct (String.eqb_spec a b) as [->|Hne].
  - rewrite strcmp_refl. reflexivity.
  - apply Z.eqb_neq. intros H. apply Hne. now apply strcmp_0_eq.
Qed.

Lemma is_denied_from_hit s path resolved :
  In path s \/ In resolved s -> is_denied_from s path resolved = true.
Proof.
  induction s as [|entry s IH]; simpl; [tauto|].
  intros [[->|H]|[->|H]].
  - rewrite strcmp_refl. reflexivity.
  - rewrite IH by tauto. now destruct (_ || _).
  - rewrite strcmp_refl. simpl. now rewrite orb_true_r.
  - rewrite IH by tauto. now destruct (_ || _).
Qed.

Lemma is_denied_from_miss s path resolved :
  cstring path = true -> cstring resolved = true ->
  forallb cstring s = true ->
  is_denied_from s path resolved = true ->
  In path s \/ In resolved s.
Proof.
  intros Hp Hr. induction s as [|entry s IH]; simpl; [discriminate|].
  intros Hs. apply andb_prop in Hs as [He Hs].
  rewrite !strcmp_eqb by assumption.
  destruct (String.eqb_spec path entry) as [->|_]; [tauto|].
  destruct (String.eqb_spec resolved entry) as [->|_]; [tauto|].
  simpl. intros H. destruct (IH Hs H); tauto.
Qed.

Lemma DENIED_SHELLS_cstrings : forallb cstring DENIED_SHELLS = true.
Proof. reflexivity. Qed.

(** ** Loops *)

Lemma for_each_done {A : Type} (body : A -> M unit) (l : list A) :
  (forall x, snd (body x) = Done tt) ->
  for_each l body = (flat_map (fun x => fst (body x)) l, Done tt).
Proof.
  intros Hbody. induction l as [|x l IH]; simpl; [reflexivity|].
  unfold bind. specialize (Hbody x).
  destruct (body x) as [t [[]|status]]; simpl in *; [|discriminate].
  now rewrite IH.
Qed.

Lemma forallb_flat_map {A B : Type} (p : B -> bool) (f : A -> list B)
  (l : list A) :
  (forall x, In x l -> forallb p (f x) = true) ->
  forallb p (flat_map f l) = true.
Proof.
  induction l as [|x l IH]; simpl; intros H; [reflexivity|].
  rewrite forallb_app, H, IH; auto.
Qed.

(** ** [snprintf] into the [PATH_MAX] buffer *)

Lemma take_bytes_all n s : (String.length s <= n)%nat -> take_bytes n s = s.
Proof.
  revert n. induction s as [|c s IH]; intros [|n]; simpl; intros H;
    try reflexivity; try lia.
  f_equal. apply IH. lia.
Qed.

Lemma snprintf_fits size dir d_name buf n :
  snprintf size dir d_name = (buf, n) ->
  (n <? 0) || (n >=? size) = false ->
  buf = dir +:+ "/" +:+ d_name /\ Z.of_nat (String.length buf) < size.
Proof.
  unfold snprintf. intros [= <- <-] H.
  apply orb_false_elim in H as [H1 H2].
  apply Z.ltb_ge in H1. rewrite Z.geb_leb in H2. apply Z.leb_gt in H2.
  destruct (_ >? INT_MAX) eqn:Hmax; [lia|].
  rewrite take_bytes_all by lia. auto.
Qed.

Lemma snprintf_too_long size dir d_name buf n :
  size <= INT_MAX ->
  snprintf size dir d_name = (buf, n) ->
  (n <? 0) || (n >=? size) = true ->
  size <= Z.of_nat (String.length (dir +:+ "/" +:+ d_name)).
Proof.
  unfold snprintf. intros Hsize [= <- <-] H.
  destruct (_ >? INT_MAX) eqn:Hmax.
  - apply Z.gtb_lt in Hmax. lia.
  - apply orb_prop in H as [H|H].
    + apply Z.ltb_lt in H. lia.
    + rewrite Z.geb_leb in H. now apply Z.leb_le.
Qed.

Lemma PATH_MAX_int : PATH_MAX <= INT_MAX.
Proof. unfold PATH_MAX, INT_MAX. lia. Qed.

(** ** One directory entry *)

Ltac scan_simpl :=
  cbn -[is_denied S_ISREG Z.land Z.lor Z.eqb Z.ltb Z.geb PATH_MAX snprintf].

Ltac scan_step :=
  match goal with
  | |- context [snprintf ?size ?dir ?name] =>
      let fullpath := fresh "fullpath" in
      let n := fresh "n" in
      destruct (snprintf size dir name) as [fullpath n] eqn:Hsnprintf
  | |- context [(?n <? 0) || (?n >=? PATH_MAX)] =>
      destruct ((n <? 0) || (n >=? PATH_MAX)) eqn:Hn;
      match goal with
      | Hs : snprintf _ _ _ = (_, n), Ht : _ = true |- _ =>
          pose proof (snprintf_too_long _ _ _ _ _ PATH_MAX_int Hs Ht) as Hlong
      | Hs : snprintf _ _ _ = (_, n), Hf : _ = false |- _ =>
          destruct (snprintf_fits _ _ _ _ _ Hs Hf) as [Hfull Hshort]
      end
  | |- context [os_stat ?os ?p] =>
      let st_mode := fresh "st_mode" in
      destruct (os_stat os p) as [st_mode|] eqn:Hstat
  | |- context [S_ISREG ?m] => destruct (S_ISREG m) eqn:Hreg
  | |- context [Z.land ?m ?bits =? 0] => destruct (Z.land m bits =? 0) eqn:Hexec
  | |- context [os_realpath ?os ?p] =>
      let resolved := fresh "resolved" in
      destruct (os_realpath os p) as [resolved|] eqn:Hreal
  | |- context [is_denied ?p ?r] => destruct (is_denied p r) eqn:Hden
  | |- context [os_open ?os ?p <? 0] => destruct (os_open os p <? 0) eqn:Hopen
  end.

(** Every path through [scan_entry], with the tests it took as
    hypotheses. *)
Ltac scan_cases :=
  unfold scan_entry, add_exec_rule, stat, realpath, open, landlock_add_rule,
    close, continue, call, ret, bind;
  repeat (scan_simpl; scan_step); scan_simpl.

Lemma scan_entry_done os fd dir d_name :
  snd (scan_entry os fd dir d_name) = Done tt.
Proof. scan_cases; reflexivity. Qed.

Lemma scan_entry_entry_events os fd dir d_name :
  forallb is_entry_event (fst (scan_entry os fd dir d_name)) = true.
Proof. scan_cases; reflexivity. Qed.

Lemma scan_entry_events os fd dir d_name :
  forallb is_scan_event (fst (scan_entry os fd dir d_name)) = true.
Proof. scan_cases; reflexivity. Qed.

Lemma opened_dirs_entry_events t :
  forallb is_entry_event t = true -> opened_dirs t = [].
Proof.
  induction t as [|e t IH]; simpl; [reflexivity|].
  intros H. apply andb_prop in H as [He Ht].
  unfold opened_dirs in *. simpl. rewrite (IH Ht), app_nil_r.
  now destruct e.
Qed.

Lemma scan_entry_too_long os fd dir d_name :
  PATH_MAX <= Z.of_nat (String.length (dir +:+ "/" +:+ d_name)) ->
  scan_entry os fd dir d_name = ([], Done tt).
Proof. intros Hlen. scan_cases; subst; solve [reflexivity | lia]. Qed.

Lemma scan_entry_attempts os fd dir d_name :
  rule_attempts (fst (scan_entry os fd dir d_name)) =
  if allowable os (dir +:+ "/" +:+ d_name) then [dir +:+ "/" +:+ d_name]
  else [].
Proof.
  remember (allowable os (dir +:+ "/" +:+ d_name)) as b eqn:Hb.
  scan_cases; subst; unfold allowable, any_exec_bit;
    repeat match goal with
           | H : PATH_MAX <= _ |- _ => apply Z.ltb_ge in H
           | H : _ < PATH_MAX |- _ => apply Z.ltb_lt in H
           end;
    repeat match goal with
           | H : _ = _ |- _ => rewrite H
           end;
    rewrite ?andb_false_r; reflexivity.
Qed.

(** The calls for an entry name the whole literal path, and only when it
    fits the buffer. *)
Lemma scan_entry_paths os fd dir d_name e path :
  In e (fst (scan_entry os fd dir d_name)) ->
  event_path e = Some path ->
  path = dir +:+ "/" +:+ d_name /\
  Z.of_nat (String.length path) < PATH_MAX.
Proof.
  scan_cases; subst; intros Hin Hpath;
    repeat (destruct Hin as [<-|Hin]; [try discriminate|]);
    try contradiction;
    try (injection Hpath as <-; split; [reflexivity|assumption]).
Qed.

(** ** One directory *)

(** The calls for the entries of a directory that opened. *)
Lemma readdir_loop os fd dir entries :
  for_each entries (fun d_name =>
    readdir dir d_name ;; scan_entry os fd dir d_name) =
  (flat_map (fun d_name =>
     Ev_readdir dir d_name :: fst (scan_entry os fd dir d_name)) entries,
   Done tt).
Proof.
  rewrite for_each_done.
  - f_equal. apply flat_map_ext. intros d_name. unfold readdir, call, bind.
    now destruct (scan_entry os fd dir d_name).
  - intros d_name. unfold readdir, call, bind.
    pose proof (scan_entry_done os fd dir d_name) as H.
    now destruct (scan_entry os fd dir d_name).
Qed.

Lemma scan_dir_eq os fd dir :
  scan_dir os fd dir =
  (match os_opendir os dir with
   | None => [Ev_opendir dir false]
   | Some entries =>
       Ev_opendir dir true
       :: flat_map (fun d_name =>
            Ev_readdir dir d_name :: fst (scan_entry os fd dir d_name))
            entries
       ++ [Ev_closedir dir]
   end, Done tt).
Proof.
  unfold scan_dir, opendir, call. unfold bind at 1.
  destruct (os_opendir os dir) as [entries|]; [|reflexivity].
  rewrite readdir_loop. reflexivity.
Qed.

Lemma scan_dir_events os fd dir :
  forallb is_scan_event (fst (scan_dir os fd dir)) = true.
Proof.
  rewrite scan_dir_eq. simpl.
  destruct (os_opendir os dir) as [entries|]; [|reflexivity].
  simpl. rewrite forallb_app. simpl. rewrite andb_true_r.
  apply forallb_flat_map. intros d_name _. simpl.
  apply scan_entry_events.
Qed.

Lemma scan_dir_opened os fd dir :
  opened_dirs (fst (scan_dir os fd dir)) = [dir].
Proof.
  rewrite scan_dir_eq. simpl.
  destruct (os_opendir os dir) as [entries|]; [|reflexivity].
  unfold opened_dirs. simpl. f_equal.
  rewrite flat_map_app. simpl. rewrite app_nil_r.
  induction entries as [|d_name entries IH]; simpl; [reflexivity|].
  rewrite flat_map_app, IH, app_nil_r.
  apply opened_dirs_entry_events, scan_entry_entry_events.
Qed.

Lemma rule_attempts_app t1 t2 :
  rule_attempts (t1 ++ t2) = rule_attempts t1 ++ rule_attempts t2.
Proof. apply flat_map_app. Qed.

Lemma scan_dir_attempts os fd dir path :
  In path (rule_attempts (fst (scan_dir os fd dir))) <->
  exists entries d_name,
    os_opendir os dir = Some entries /\ In d_name entries /\
    path = dir +:+ "/" +:+ d_name /\ allowable os path = true.
Proof.
  rewrite scan_dir_eq. simpl.
  destruct (os_opendir os dir) as [entries|].
  - change (Ev_opendir dir true :: ?t) with ([Ev_opendir dir true] ++ t).
    rewrite !rule_attempts_app. simpl. rewrite app_nil_r.
    assert (Hloop : forall l,
      In path (rule_attempts (flat_map (fun d_name =>
        Ev_readdir dir d_name :: fst (scan_entry os fd dir d_name)) l)) <->
      exists d_name, In d_name l /\ path = dir +:+ "/" +:+ d_name /\
                     allowable os path = true).
    { induction l as [|d_name l IH]; simpl.
      - split; [tauto|]. now intros (? & [] & _).
      - change (Ev_readdir dir d_name :: ?t) with ([Ev_readdir dir d_name] ++ t).
        rewrite !rule_attempts_app. simpl.
        rewrite in_app_iff, IH, scan_entry_attempts.
        destruct (allowable os (dir +:+ "/" +:+ d_name)) eqn:Hok; simpl.
        + split.
          * intros [[<-|[]]|(n & Hn & Hp & Ha)]; eauto 6.
          * intros (n & [<-|Hn] & -> & Ha); eauto 6.
        + split.
          * intros [[]|(n & Hn & Hp & Ha)]; eauto 6.
          * intros (n & [<-|Hn] & -> & Ha); [congruence|eauto 6]. }
    rewrite Hloop. split.
    + intros (n & ? & ? & ?). eauto 6.
    + intros (l & n & [= <-] & ? & ? & ?). eauto.
  - simpl. split; [tauto|]. now intros (? & ? & [=] & _).
Qed.

(** ** The enumeration *)

Lemma enumeration_eq os fd s :
  for_each (path_dirs s) (scan_dir os fd) = (enumeration os fd s, Done tt).
Proof.
  apply for_each_done. intros dir. now rewrite scan_dir_eq.
Qed.

Lemma enumeration_events os fd s :
  forallb is_scan_event (enumeration os fd s) = true.
Proof.
  apply forallb_flat_map. intros dir _. apply scan_dir_events.
Qed.

Lemma enumeration_opened os fd s :
  opened_dirs (enumeration os fd s) = path_dirs s.
Proof.
  unfold enumeration.
  induction (path_dirs s) as [|dir dirs IH]; simpl; [reflexivity|].
  unfold opened_dirs in *. rewrite flat_map_app, IH.
  fold (opened_dirs (fst (scan_dir os fd dir))).
  now rewrite scan_dir_opened.
Qed.

Lemma enumeration_attempts os fd s path :
  In path (rule_attempts (enumeration os fd s)) <->
  exists dir entries d_name,
    In dir (path_dirs s) /\
    os_opendir os dir = Some entries /\ In d_name entries /\
    path = dir +:+ "/" +:+ d_name /\ allowable os path = true.
Proof.
  unfold enumeration.
  induction (path_dirs s) as [|dir dirs IH]; simpl.
  - split; [tauto|]. now intros (? & ? & ? & [] & _).
  - rewrite rule_attempts_app, in_app_iff, IH, scan_dir_attempts. split.
    + intros [(l & n & ?)|(d & l & n & ? & ?)]; [exists dir|exists d]; eauto 8.
    + intros (d & l & n & [<-|Hd] & H); [left|right]; eauto 8.
Qed.

Lemma enumeration_readdir os fd s dir entries d_name :
  In dir (path_dirs s) -> os_opendir os dir = Some entries ->
  In d_name entries ->
  In (Ev_readdir dir d_name) (enumeration os fd s).
Proof.
  intros Hdir Hopen Hname. unfold enumeration.
  apply in_flat_map. exists dir. split; [assumption|].
  rewrite scan_dir_eq. simpl. rewrite Hopen. right.
  apply in_or_app. left. apply in_flat_map. exists d_name. simpl. auto.
Qed.

Lemma enumeration_paths os fd s e path :
  In e (enumeration os fd s) -> event_path e = Some path ->
  exists dir d_name,
    In (Ev_readdir dir d_name) (enumeration os fd s) /\
    path = dir +:+ "/" +:+ d_name /\
    Z.of_nat (String.length path) < PATH_MAX.
Proof.
  intros Hin Hpath. unfold enumeration in Hin.
  apply in_flat_map in Hin as (dir & Hdir & Hin).
  rewrite scan_dir_eq in Hin. simpl in Hin.
  destruct (os_opendir os dir) as [entries|] eqn:Hopen.
  - destruct Hin as [<-|Hin]; [discriminate|].
    apply in_app_or in Hin as [Hin|[<-|[]]]; [|discriminate].
    apply in_flat_map in Hin as (d_name & Hname & [<-|Hin]); [discriminate|].
    exists dir, d_name. split.
    + eapply enumeration_readdir; eauto.
    + eapply scan_entry_paths; eauto.
  - destruct Hin as [<-|[]]. discriminate.
Qed.

(** ** The whole run *)

Lemma apply_sandbox_run os : run_of os (trace os) (result os).
Proof.
  unfold trace, result, apply_sandbox.
  unfold landlock_create_ruleset, getenv_PATH, strdup, perror, fprintf_stderr,
    close, free, prctl_no_new_privs, landlock_restrict_self, _exit, call, bind.
  cbv beta.
  destruct (os_create_ruleset os <? 0) eqn:Hfd.
  { apply Z.ltb_lt in Hfd. cbn. now constructor. }
  apply Z.ltb_ge in Hfd.
  destruct (os_PATH os) as [[|c s]|] eqn:HPATH.
  { cbn. rewrite <- HPATH. constructor; auto. }
  2: { cbn. rewrite <- HPATH. constructor; auto. }
  destruct (os_strdup os) eqn:Hdup.
  2: { cbn. now apply Run_no_memory. }
  rewrite enumeration_eq.
  destruct (os_prctl os =? 0) eqn:Hlock; simpl negb; cbv iota.
  2: { apply Z.eqb_neq in Hlock. cbn [fst snd app].
       now apply Run_no_lock. }
  apply Z.eqb_eq in Hlock.
  destruct (os_restrict_self os =? 0) eqn:Hcommit; simpl negb; cbv iota.
  2: { apply Z.eqb_neq in Hcommit. cbn [fst snd app]. rewrite Hlock.
       now apply Run_no_commit. }
  apply Z.eqb_eq in Hcommit. cbn [fst snd app]. rewrite Hlock, Hcommit.
  now apply Run_restricted.
Qed.

(** Case analysis on the way the run of [os] went; the goal has to speak
    of [trace os] and [result os]. *)
Ltac run_cases os :=
  let t := fresh "t" in
  let r := fresh "r" in
  let Hrun := fresh "Hrun" in
  pose proof (apply_sandbox_run os) as Hrun;
  unfold final in *;
  remember (trace os) as t in *;
  remember (result os) as r in *;
  repeat match goal with H : _ = trace os |- _ => clear H end;
  repeat match goal with H : _ = result os |- _ => clear H end;
  destruct Hrun.

(** ** The kernel on a trace *)

Lemma kernel_run_app k t1 t2 :
  kernel_run k (t1 ++ t2) = kernel_run (kernel_run k t1) t2.
Proof. apply fold_left_app. Qed.

Lemma granted_app t1 t2 : granted (t1 ++ t2) = granted t1 ∪ granted t2.
Proof. unfold granted. rewrite flat_map_app. apply list_to_set_app_L. Qed.

(** The enumeration only ever adds to the ruleset. *)
Lemma kernel_run_scan k t :
  forallb is_scan_event t = true ->
  kernel_run k t =
  {| ruleset := ruleset k ∪ granted t;
     no_new_privs := no_new_privs k;
     domain := domain k |}.
Proof.
  revert k. induction t as [|e t IH]; intros k Hev.
  - destruct k. unfold granted. simpl. f_equal. set_solver.
  - simpl in Hev. apply andb_prop in Hev as [He Ht].
    change (kernel_run k (e :: t)) with (kernel_run (kernel_step k e) t).
    rewrite (IH _ Ht). change (e :: t) with ([e] ++ t). rewrite granted_app.
    destruct e; try discriminate; simpl; try (f_equal; set_solver).
    unfold granted. simpl. destruct (ret0 =? 0); simpl; f_equal; set_solver.
Qed.

(** ** Mode bits *)

Lemma land_bit_0 m k :
  0 <= k -> (Z.land m (2 ^ k) = 0 <-> Z.testbit m k = false).
Proof.
  intros Hk. split; intros H.
  - assert (Hb : Z.testbit (Z.land m (2 ^ k)) k = false)
      by (rewrite H; apply Z.bits_0).
    rewrite Z.land_spec, Z.pow2_bits_true, andb_true_r in Hb; assumption.
  - apply Z.bits_inj'. intros n Hn.
    rewrite Z.land_spec, Z.bits_0, Z.pow2_bits_eqb by assumption.
    destruct (Z.eqb_spec k n) as [->|_]; [now rewrite H|apply andb_false_r].
Qed.

(** The test of [scan_entry] on [st_mode] asks for the execute bit of the
    owner (bit 6), of the group (bit 3) or of the others (bit 0). *)
Lemma any_exec_bit_spec m :
  any_exec_bit m = Z.testbit m 6 || Z.testbit m 3 || Z.testbit m 0.
Proof.
  unfold any_exec_bit, S_IXUSR, S_IXGRP, S_IXOTH.
  rewrite !Z.land_lor_distr_r.
  change 64 with (2 ^ 6). change 8 with (2 ^ 3). change 1 with (2 ^ 0).
  pose proof (land_bit_0 m 6) as H6. pose proof (land_bit_0 m 3) as H3.
  pose proof (land_bit_0 m 0) as H0.
  destruct (Z.testbit m 6), (Z.testbit m 3), (Z.testbit m 0); simpl;
    try (apply negb_true_iff, Z.eqb_neq; rewrite !Z.lor_eq_0_iff;
         intuition (try lia; try discriminate)).
  apply negb_false_iff, Z.eqb_eq. rewrite !Z.lor_eq_0_iff.
  intuition lia.
Qed.

Lemma allowable_spec os path :
  allowable os path = true <->
  Z.of_nat (String.length path) < PATH_MAX /\
  exists st_mode resolved,
    os_stat os path = Some st_mode /\
    S_ISREG st_mode = true /\
    Z.testbit st_mode 6 || Z.testbit st_mode 3 || Z.testbit st_mode 0 = true /\
    os_realpath os path = Some resolved /\
    is_denied path resolved = false.
Proof.
  unfold allowable. rewrite andb_true_iff, Z.ltb_lt.
  apply and_iff_compat_l. split.
  - destruct (os_stat os path) as [m|]; [|discriminate].
    destruct (os_realpath os path) as [r|];
      [|rewrite andb_false_r; discriminate].
    rewrite !andb_true_iff, negb_true_iff, any_exec_bit_spec.
    intros [[? ?] ?]. eauto 8.
  - intros (m & r & -> & Hreg & Hexec & -> & Hden).
    now rewrite any_exec_bit_spec, Hreg, Hexec, Hden.
Qed.

(** ** Kinds of events *)

(** Events of the enumeration are not the fatal or the activation calls. *)
Lemma scan_event_kinds e :
  is_scan_event e = true ->
  is_diagnostic e = false /\
  (forall status, e <> Ev_exit status) /\
  (forall ret, e <> Ev_prctl_no_new_privs ret) /\
  (forall fd ret, e <> Ev_landlock_restrict_self fd ret).
Proof. destruct e; simpl; intros H; try discriminate; repeat split; congruence. Qed.

Lemma forallb_In {A : Type} (p : A -> bool) (l : list A) (x : A) :
  forallb p l = true -> In x l -> p x = true.
Proof. intros H. apply (proj1 (forallb_forall p l) H). Qed.

Lemma opened_dirs_app t1 t2 :
  opened_dirs (t1 ++ t2) = opened_dirs t1 ++ opened_dirs t2.
Proof. apply flat_map_app. Qed.

Lemma diagnostics_app t1 t2 :
  diagnostics (t1 ++ t2) = diagnostics t1 ++ diagnostics t2.
Proof. apply List.filter_app. Qed.

Lemma diagnostics_scan t :
  forallb is_scan_event t = true -> diagnostics t = [].
Proof.
  induction t as [|e t IH]; simpl; [reflexivity|].
  intros H. apply andb_prop in H as [He Ht].
  apply scan_event_kinds in He as [-> _]. auto.
Qed.

Lemma enumeration_kinds os fd s e :
  In e (enumeration os fd s) ->
  is_diagnostic e = false /\
  (forall status, e <> Ev_exit status) /\
  (forall ret, e <> Ev_prctl_no_new_privs ret) /\
  (forall fd' ret, e <> Ev_landlock_restrict_self fd' ret).
Proof.
  intros Hin. apply scan_event_kinds.
  eapply forallb_In; [apply enumeration_events|eassumption].
Qed.

(** A list splits in one way only at its single element of a kind. *)
Lemma split_unique {A : Type} (P : A -> Prop) (l1 l2 before after : list A)
  (x y : A) :
  (forall e, In e l1 -> ~ P e) -> (forall e, In e l2 -> ~ P e) -> P y ->
  l1 ++ x :: l2 = before ++ y :: after ->
  before = l1 /\ y = x /\ after = l2.
Proof.
  intros H1 H2 Hy. revert before.
  induction l1 as [|a l1 IH]; intros [|b before]; simpl; intros [= E1 E2].
  - auto.
  - exfalso. apply (H2 y); [|exact Hy]. rewrite E2. apply in_elt.
  - exfalso. apply (H1 y); [|exact Hy]. left. auto.
  - subst b. destruct (IH (fun e He => H1 e (or_intror He)) before E2)
      as (-> & -> & ->). auto.
Qed.

Arguments enumeration : simpl never.

(** Where in a trace of known shape the event of [Hin] can be. *)
Ltac in_trace Hin :=
  rewrite ?in_app_iff in Hin; simpl in Hin;
  rewrite ?in_app_iff in Hin; simpl in Hin;
  repeat (destruct Hin as [Hin|Hin]);
  try discriminate; try congruence; try contradiction.

(** ** The tokens of [strtok_r] *)

Lemma path_dirs_step s :
  path_dirs s =
  match strtok_r s ":" with
  | Some (dir, saveptr) => dir :: path_dirs saveptr
  | None => []
  end.
Proof.
  rewrite path_dirs_equation_1. unfold inspect.
  assert (H : forall o (e : strtok_r s ":" = o),
    path_dirs_unfold_clause_1 s (exist _ o e) =
    match o with
    | Some (dir, saveptr) => dir :: path_dirs saveptr
    | None => []
    end).
  { intros [[d r]|] e; reflexivity. }
  apply H.
Qed.

Lemma is_delim_colon c : is_delim ":" c = Ascii.eqb c ":".
Proof. simpl. now destruct (Ascii.eqb c ":"). Qed.

Lemma components_cons s : exists first others, components s = first :: others.
Proof.
  induction s as [|c s (f & o & IH)]; simpl; eauto.
  destruct (Ascii.eqb c ":"); eauto. rewrite IH. eauto.
Qed.

Lemma skip_delims_components s :
  List.filter nonempty (components (skip_delims ":" s)) =
  List.filter nonempty (components s).
Proof.
  induction s as [|c s IH]; [reflexivity|].
  cbn [skip_delims]. rewrite is_delim_colon.
  destruct (Ascii.eqb c ":") eqn:Hc; [|reflexivity].
  rewrite IH. cbn [components]. now rewrite Hc.
Qed.

Lemma skip_delims_head s c s1 :
  skip_delims ":" s = String c s1 -> Ascii.eqb c ":" = false.
Proof.
  induction s as [|d s IH]; [discriminate|].
  cbn [skip_delims]. rewrite is_delim_colon.
  destruct (Ascii.eqb d ":") eqn:Hd; [exact IH|].
  now intros [= <- <-].
Qed.

Lemma skip_delims_shorter s :
  (String.length (skip_delims ":" s) <= String.length s)%nat.
Proof.
  induction s as [|c s IH]; [reflexivity|].
  cbn [skip_delims]. destruct (is_delim ":" c); simpl; lia.
Qed.

Lemma break_at_delim_components s tok e :
  break_at_delim ":" s = (tok, e) ->
  components s = match e with
                 | EmptyString => [tok]
                 | String _ e' => tok :: components e'
                 end
  /\ (String.length e <= String.length s)%nat.
Proof.
  revert tok e. induction s as [|c s IH]; intros tok e.
  - intros [= <- <-]. auto.
  - cbn [break_at_delim components]. rewrite is_delim_colon.
    destruct (Ascii.eqb c ":") eqn:Hc.
    + intros [= <- <-]. auto.
    + destruct (break_at_delim ":" s) as [t e0]. intros [= <- <-].
      destruct (IH t e0 eq_refl) as [-> Hlen].
      split; [now destruct e0|simpl; lia].
Qed.

Lemma strtok_r_None s :
  strtok_r s ":" = None -> List.filter nonempty (components s) = [].
Proof.
  unfold strtok_r. rewrite <- skip_delims_components.
  destruct (skip_delims ":" s) as [|c s1]; [reflexivity|].
  destruct (break_at_delim ":" (String c s1)) as [tok [|d e]]; discriminate.
Qed.

Lemma strtok_r_Some s tok saveptr :
  strtok_r s ":" = Some (tok, saveptr) ->
  List.filter nonempty (components s) =
  tok :: List.filter nonempty (components saveptr)
  /\ (String.length saveptr < String.length s)%nat.
Proof.
  unfold strtok_r. rewrite <- skip_delims_components.
  pose proof (skip_delims_shorter s) as Hskip.
  destruct (skip_delims ":" s) as [|c s1] eqn:Hs; [discriminate|].
  apply skip_delims_head in Hs.
  destruct (break_at_delim ":" (String c s1)) as [t e] eqn:Hb.
  destruct (break_at_delim_components _ _ _ Hb) as [-> Hlen].
  revert Hb. cbn [break_at_delim]. rewrite is_delim_colon, Hs.
  destruct (break_at_delim ":" s1) as [t1 e1]. intros [= <- <-].
  simpl in Hskip, Hlen.
  destruct e1; intros [= <- <-]; simpl in *; split; (reflexivity || lia).
Qed.

(** The directories visited are the components of PATH that are not
    empty. *)
Lemma path_dirs_components s :
  path_dirs s = List.filter nonempty (components s).
Proof.
  remember (String.length s) as n eqn:Hn. revert s Hn.
  induction n as [n IH] using lt_wf_ind. intros s ->.
  rewrite path_dirs_step.
  destruct (strtok_r s ":") as [[tok saveptr]|] eqn:Htok.
  - apply strtok_r_Some in Htok as [-> Hlen].
    f_equal. now apply (IH _ Hlen).
  - now rewrite strtok_r_None.
Qed.

Lemma components_app a b :
  components (a +:+ ":" +:+ b) = components a ++ components b.
Proof.
  induction a as [|c a IH]; [reflexivity|].
  simpl in *. destruct (Ascii.eqb c ":").
  - now rewrite IH.
  - rewrite IH. now destruct (components_cons a) as (f & o & ->).
Qed.

Lemma path_dirs_app a b :
  path_dirs (a +:+ ":" +:+ b) = path_dirs a ++ path_dirs b.
Proof.
  rewrite !path_dirs_components, components_app. apply List.filter_app.
Qed.

Lemma components_self s c : In c (components s) -> components c = [c].
Proof.
  revert c. induction s as [|x s IH]; intros c; cbn [components].
  - now intros [<-|[]].
  - destruct (Ascii.eqb x ":") eqn:Hx.
    + intros [<-|Hin]; [reflexivity|auto].
    + destruct (components_cons s) as (f & o & Hs). rewrite Hs in *.
      intros [<-|Hin].
      * cbn [components]. rewrite Hx, (IH f); [reflexivity|now left].
      * apply IH. now right.
Qed.

Lemma path_dirs_self s dir : In dir (path_dirs s) -> path_dirs dir = [dir].
Proof.
  rewrite !path_dirs_components. intros Hin.
  apply List.filter_In in Hin as [Hin Hne].
  rewrite (components_self _ _ Hin). simpl. now rewrite Hne.
Qed.

Lemma path_dirs_nonempty s dir : In dir (path_dirs s) -> dir <> EmptyString.
Proof.
  rewrite path_dirs_components. intros Hin.
  apply List.filter_In in Hin as [_ Hne]. now intros ->.
Qed.

Lemma take_bytes_length n s : (String.length (take_bytes n s) <= n)%nat.
Proof.
  revert s. induction n as [|n IH]; intros [|c s]; simpl; try lia.
  specialize (IH s). lia.
Qed.

Lemma snprintf_buffer size dir d_name :
  0 < size ->
  Z.of_nat (String.length (fst (snprintf size dir d_name))) < size.
Proof.
  intros Hsize. unfold snprintf. cbn [fst].
  pose proof (take_bytes_length (Z.to_nat (size - 1))
                (dir +:+ "/" +:+ d_name)). lia.
Qed.

(** Where an attempted path comes from. *)
Lemma rule_attempts_origin (os : OS) (path : string) :
  In path (rule_attempts (trace os)) ->
  exists s dir entries d_name,
    os_PATH os = Some s /\ In dir (path_dirs s) /\
    os_opendir os dir = Some entries /\ In d_name entries /\
    path = dir +:+ "/" +:+ d_name /\ allowable os path = true.
Proof.
  assert (Hmain : forall s,
    os_PATH os = Some s ->
    In path (rule_attempts (enumeration os (os_create_ruleset os) s)) ->
    exists s dir entries d_name,
      os_PATH os = Some s /\ In dir (path_dirs s) /\
      os_opendir os dir = Some entries /\ In d_name entries /\
      path = dir +:+ "/" +:+ d_name /\ allowable os path = true).
  { intros s HPATH Hin.
    apply enumeration_attempts in Hin
      as (dir & entries & d_name & Hdir & Hopen & Hname & Hpath & Hok).
    exists s, dir, entries, d_name. tauto. }
  run_cases os; rewrite ?rule_attempts_app; simpl;
    rewrite ?app_nil_r; try tauto; eauto.
Qed.

(** ** Visiting a file or a directory twice *)

Lemma enumeration_with_PATH os p fd s :
  enumeration (with_PATH os p) fd s = enumeration os fd s.
Proof. reflexivity. Qed.

Lemma granted_revisit {A : Type} (f : A -> list event) (l : list A) (x : A) :
  In x l -> granted (flat_map f (l ++ [x])) = granted (flat_map f l).
Proof.
  intros Hin. apply in_split in Hin as (l1 & l2 & ->).
  rewrite !flat_map_app. cbn [flat_map]. rewrite app_nil_r, !granted_app.
  set_solver.
Qed.

Lemma add_exec_rule_twice os fd path path' k :
  os_file os path' = os_file os path ->
  0 <= os_open os path -> 0 <= os_open os path' ->
  snd (add_exec_rule os fd path ;; add_exec_rule os fd path') =
  snd (add_exec_rule os fd path) /\
  kernel_run k (fst (add_exec_rule os fd path ;; add_exec_rule os fd path')) =
  kernel_run k (fst (add_exec_rule os fd path)).
Proof.
  intros Hfile Hopen Hopen'.
  unfold add_exec_rule, open, landlock_add_rule, close, call, ret, bind.
  rewrite Hfile.
  rewrite (proj2 (Z.ltb_ge _ _) Hopen), (proj2 (Z.ltb_ge _ _) Hopen').
  cbn. split; [reflexivity|].
  destruct (os_add_rule os (os_file os path) =? 0); [|reflexivity].
  cbn. f_equal. set_solver.
Qed.

Lemma revisit_final os s dir :
  os_PATH os = Some s -> In dir (path_dirs s) ->
  final (with_PATH os (Some (s +:+ ":" +:+ dir))) = final os /\
  result (with_PATH os (Some (s +:+ ":" +:+ dir))) = result os /\
  diagnostics (trace (with_PATH os (Some (s +:+ ":" +:+ dir)))) =
  diagnostics (trace os).
Proof.
  intros HPATH Hdir.
  assert (Hs : s +:+ ":" +:+ dir <> EmptyString) by (now destruct s).
  assert (Hs0 : s <> EmptyString).
  { intros ->. rewrite path_dirs_step in Hdir. exact Hdir. }
  assert (Hgr : forall fd,
    granted (enumeration os fd (s +:+ ":" +:+ dir)) =
    granted (enumeration os fd s)).
  { intros fd. unfold enumeration.
    rewrite path_dirs_app, (path_dirs_self _ _ Hdir).
    now apply granted_revisit. }
  assert (Hk : forall fd s1 s2 post,
    granted (enumeration os fd s1) = granted (enumeration os fd s2) ->
    kernel_run (boot os)
      ([Ev_landlock_create_ruleset fd; Ev_getenv "PATH" (Some s1);
        Ev_strdup s1 true] ++ enumeration os fd s1 ++ post) =
    kernel_run (boot os)
      ([Ev_landlock_create_ruleset fd; Ev_getenv "PATH" (Some s2);
        Ev_strdup s2 true] ++ enumeration os fd s2 ++ post)).
  { intros fd s1 s2 post Hg. rewrite !kernel_run_app.
    rewrite !(kernel_run_scan _ _ (enumeration_events _ _ _)), Hg.
    reflexivity. }
  assert (Hd : forall fd s1 s2 post,
    diagnostics
      ([Ev_landlock_create_ruleset fd; Ev_getenv "PATH" (Some s1);
        Ev_strdup s1 true] ++ enumeration os fd s1 ++ post) =
    diagnostics
      ([Ev_landlock_create_ruleset fd; Ev_getenv "PATH" (Some s2);
        Ev_strdup s2 true] ++ enumeration os fd s2 ++ post)).
  { intros fd s1 s2 post. rewrite !diagnostics_app.
    now rewrite !(diagnostics_scan _ (enumeration_events _ _ _)). }
  pose proof (apply_sandbox_run (with_PATH os (Some (s +:+ ":" +:+ dir))))
    as Hrun'.
  unfold final.
  change (boot (with_PATH os (Some (s +:+ ":" +:+ dir)))) with (boot os).
  remember (trace (with_PATH os (Some (s +:+ ":" +:+ dir)))) as t' eqn:Et'.
  remember (result (with_PATH os (Some (s +:+ ":" +:+ dir)))) as r' eqn:Er'.
  clear Et' Er'.
  run_cases os; destruct Hrun'; cbn [with_PATH os_create_ruleset os_PATH
    os_strdup os_prctl os_restrict_self] in *;
    try lia; try congruence;
    repeat match goal with
           | H : _ \/ _ |- _ => destruct H; try congruence
           | H : Some _ = Some _ |- _ => injection H as H; subst
           end;
    try congruence.
  all: rewrite ?enumeration_with_PATH.
  all: try (assert (s0 = s) by congruence; subst s0).
  all: split; [|split; [reflexivity|]]; auto.
Qed.

(** ** The ways out *)

(** X6.  A run that ends in [_exit] ends with status 126, and [_exit] is its
    last call.  It wrote one diagnostic, except when [strdup] failed: then
    it wrote none. *)
Lemma fatal_exit_protocol os status :
  result os = Exited status ->
  status = 126 /\
  (exists before, trace os = before ++ [Ev_exit 126]) /\
  ((exists d, diagnostics (trace os) = [d]) \/
   (diagnostics (trace os) = [] /\ os_strdup os = false /\
    0 <= os_create_ruleset os /\
    exists s, os_PATH os = Some s /\ s <> EmptyString)).
Proof.
  run_cases os; intros [= <-]; split; try reflexivity.
  - split; [now eexists [_; _]|]. left. eexists. reflexivity.
  - split; [now eexists [_; _; _; _]|]. left. eexists. reflexivity.
  - split; [now eexists [_; _; _; _]|]. right. eauto 6.
  - split.
    + exists ([Ev_landlock_create_ruleset (os_create_ruleset os);
               Ev_getenv "PATH" (Some s); Ev_strdup s true]
              ++ enumeration os (os_create_ruleset os) s
              ++ [Ev_free; Ev_prctl_no_new_privs (os_prctl os);
                  Ev_perror "landlock_sandboxer: prctl(NO_NEW_PRIVS)";
                  Ev_close (os_create_ruleset os)]).
      now rewrite <- !app_assoc.
    + left. rewrite !diagnostics_app,
        (diagnostics_scan _ (enumeration_events _ _ _)).
      eexists. reflexivity.
  - split.
    + exists ([Ev_landlock_create_ruleset (os_create_ruleset os);
               Ev_getenv "PATH" (Some s); Ev_strdup s true]
              ++ enumeration os (os_create_ruleset os) s
              ++ [Ev_free; Ev_prctl_no_new_privs 0;
                  Ev_landlock_restrict_self (os_create_ruleset os)
                    (os_restrict_self os);
                  Ev_perror "landlock_sandboxer: restrict_self";
                  Ev_close (os_create_ruleset os)]).
      now rewrite <- !app_assoc.
    + left. rewrite !diagnostics_app,
        (diagnostics_scan _ (enumeration_events _ _ _)).
      eexists. reflexivity.
Qed.

Lemma strdup_failure os s :
  0 <= os_create_ruleset os -> os_PATH os = Some s -> s <> EmptyString ->
  os_strdup os = false ->
  trace os = [Ev_landlock_create_ruleset (os_create_ruleset os);
              Ev_getenv "PATH" (Some s);
              Ev_strdup s false;
              Ev_close (os_create_ruleset os);
              Ev_exit 126] /\
  result os = Exited 126 /\
  diagnostics (trace os) = [].
Proof.
  intros Hfd HPATH Hs Hdup.
  run_cases os; try lia; try congruence;
    try (exfalso; destruct H0; congruence).
  assert (s0 = s) by congruence. subst s0. auto.
Qed.

(** ** Around the activation *)

Lemma enumeration_no_commit os fd s :
  forallb (fun e => negb (is_commit e)) (enumeration os fd s) = true.
Proof.
  apply forallb_forall. intros e Hin.
  apply enumeration_kinds in Hin as (_ & _ & _ & Hc).
  destruct e; try reflexivity. now destruct (Hc ruleset_fd ret0).
Qed.

Lemma no_commit_split t before fd ret after :
  forallb (fun e => negb (is_commit e)) t = true ->
  t <> before ++ Ev_landlock_restrict_self fd ret :: after.
Proof.
  intros H ->. rewrite forallb_app in H. simpl in H.
  rewrite andb_false_r in H. discriminate.
Qed.

(** The kernel when the enumeration is over. *)
Lemma kernel_after_enumeration os fd s :
  kernel_run
    (kernel_run (boot os)
       [Ev_landlock_create_ruleset fd; Ev_getenv "PATH" (Some s);
        Ev_strdup s true])
    (enumeration os fd s) =
  {| ruleset := granted (enumeration os fd s);
     no_new_privs := os_no_new_privs os;
     domain := None |}.
Proof.
  rewrite (kernel_run_scan _ _ (enumeration_events _ _ _)). simpl.
  f_equal. apply (left_id_L ∅ (∪)).
Qed.

(** In a run that reaches the commit, what comes before the commit. *)
Lemma activation_split os fd s r rest before fd' ret' after :
  forallb (fun e => negb (is_commit e)) rest = true ->
  [Ev_landlock_create_ruleset fd; Ev_getenv "PATH" (Some s); Ev_strdup s true]
  ++ enumeration os fd s
  ++ Ev_free :: Ev_prctl_no_new_privs 0
     :: Ev_landlock_restrict_self fd r :: rest
  = before ++ Ev_landlock_restrict_self fd' ret' :: after ->
  before =
  [Ev_landlock_create_ruleset fd; Ev_getenv "PATH" (Some s); Ev_strdup s true]
  ++ enumeration os fd s ++ [Ev_free; Ev_prctl_no_new_privs 0].
Proof.
  intros Hrest E.
  eapply proj1.
  apply (split_unique (fun e => is_commit e = true)
           ([Ev_landlock_create_ruleset fd; Ev_getenv "PATH" (Some s);
             Ev_strdup s true]
            ++ enumeration os fd s ++ [Ev_free; Ev_prctl_no_new_privs 0])
           rest before after (Ev_landlock_restrict_self fd r)
           (Ev_landlock_restrict_self fd' ret')).
  - intros e Hin. apply not_true_iff_false, negb_true_iff.
    revert e Hin. apply forallb_forall.
    now rewrite !forallb_app, enumeration_no_commit.
  - intros e Hin. apply not_true_iff_false, negb_true_iff.
    revert e Hin. now apply forallb_forall.
  - reflexivity.
  - now rewrite <- E, <- !app_assoc.
Qed.


(** ** The allow-list the kernel ends with *)

Lemma ruleset_kernel_run k t : ruleset (kernel_run k t) = ruleset k ∪ granted t.
Proof.
  revert k. induction t as [|e t IH]; intros k.
  - unfold granted. simpl. set_solver.
  - change (kernel_run k (e :: t)) with (kernel_run (kernel_step k e) t).
    rewrite IH. change (e :: t) with ([e] ++ t). rewrite granted_app.
    unfold granted at 2.
    destruct e; simpl; try destruct (_ =? 0); simpl; set_solver.
Qed.

Lemma granted_In t file :
  file ∈ granted t <-> exists fd, In (Ev_landlock_add_rule fd file 0) t.
Proof.
  induction t as [|e t IH].
  - unfold granted. simpl. split; [set_solver|]. now intros [? []].
  - change (e :: t) with ([e] ++ t). rewrite granted_app, elem_of_union, IH.
    unfold granted. split.
    + intros [Hin|[fd Hin]]; [|exists fd; now right].
      destruct e; simpl in Hin; try set_solver.
      destruct (ret0 =? 0) eqn:Hret; simpl in Hin; [|set_solver].
      apply Z.eqb_eq in Hret. subst ret0.
      exists ruleset_fd. left. f_equal. set_solver.
    + intros [fd [->|Hin]]; [left|right; now exists fd].
      simpl. set_solver.
Qed.

Lemma scan_entry_rules os fd dir d_name fd' file ret :
  In (Ev_landlock_add_rule fd' file ret) (fst (scan_entry os fd dir d_name)) ->
  In (dir +:+ "/" +:+ d_name)
     (rule_attempts (fst (scan_entry os fd dir d_name))) /\
  file = os_file os (dir +:+ "/" +:+ d_name) /\
  ret = os_add_rule os file /\
  0 <= os_open os (dir +:+ "/" +:+ d_name).
Proof.
  scan_cases; subst; intros Hin;
    repeat (destruct Hin as [Hin|Hin]; [try discriminate|]);
    try contradiction.
  injection Hin as <- <- <-. apply Z.ltb_ge in Hopen. auto.
Qed.

(** A file of the final ruleset is the file of a path a rule was attempted
    for, opened and accepted by the kernel. *)
Lemma allow_list_sound os file :
  file ∈ ruleset (final os) ->
  exists path,
    In path (rule_attempts (trace os)) /\ file = os_file os path /\
    0 <= os_open os path /\ os_add_rule os file = 0.
Proof.
  unfold final. rewrite ruleset_kernel_run. simpl.
  rewrite (left_id_L ∅ (∪)), granted_In. intros [fd' Hin].
  assert (Hmain : forall s,
    In (Ev_landlock_add_rule fd' file 0)
       (enumeration os (os_create_ruleset os) s) ->
    exists path,
      In path (rule_attempts (enumeration os (os_create_ruleset os) s)) /\
      file = os_file os path /\ 0 <= os_open os path /\
      os_add_rule os file = 0).
  { intros s He. unfold enumeration in *.
    apply in_flat_map in He as (dir & Hdir & He).
    rewrite scan_dir_eq in He. simpl in He.
    destruct (os_opendir os dir) as [entries|] eqn:Hopen;
      [|now destruct He as [|[]]].
    destruct He as [|He]; [discriminate|].
    apply in_app_or in He as [He|[|[]]]; [|discriminate].
    apply in_flat_map in He as (d_name & Hname & [|He]); [discriminate|].
    apply scan_entry_rules in He as (Hatt & -> & Hret & Hfd).
    exists (dir +:+ "/" +:+ d_name). split; [|auto].
    apply (enumeration_attempts os (os_create_ruleset os) s).
    rewrite scan_entry_attempts in Hatt.
    destruct (allowable os (dir +:+ "/" +:+ d_name)) eqn:Hok;
      [|contradiction].
    eauto 8. }
  revert Hin. run_cases os; intros Hin; in_trace Hin.
  all: apply Hmain in Hin as (path & Hatt & Hrest); exists path;
    split; [|exact Hrest]; rewrite !rule_attempts_app, !in_app_iff; auto.
Qed.

(** * The claims *)

(** C1.  Whatever PATH holds and whatever the file system answers, a path
    for which the pipeline attempts an execute rule is [dir/name] for a
    directory [dir] of PATH that opened and one of its entries [name]; it
    is a regular file by [stat], has the execute bit of the owner, the
    group or the others, has a canonical form, and [is_denied] rejects
    neither it nor that form.  So no rule is attempted for a file that is
    not regular, has no execute bit, cannot be canonicalized or is
    denied. *)
Theorem rule_attempts_sound (os : OS) (path : string) :
  In path (rule_attempts (trace os)) ->
  exists s dir entries d_name st_mode resolved,
    os_PATH os = Some s /\ In dir (path_dirs s) /\
    os_opendir os dir = Some entries /\ In d_name entries /\
    path = dir +:+ "/" +:+ d_name /\
    os_stat os path = Some st_mode /\
    S_ISREG st_mode = true /\
    Z.testbit st_mode 6 || Z.testbit st_mode 3 || Z.testbit st_mode 0 = true /\
    os_realpath os path = Some resolved /\
    is_denied path resolved = false.
Proof.
  intros Hin.
  apply rule_attempts_origin in Hin
    as (s & dir & entries & d_name & HPATH & Hdir & Hopen & Hname & Hpath
        & Hok).
  apply allowable_spec in Hok
    as (_ & st_mode & resolved & Hstat & Hreg & Hexec & Hreal & Hden).
  exists s, dir, entries, d_name, st_mode, resolved. tauto.
Qed.

Lemma rule_attempts_sound_witness :
  In "/tmp/bin/tool" (rule_attempts (trace demo_os)) /\
  exists s dir entries d_name st_mode resolved,
    os_PATH demo_os = Some s /\ In dir (path_dirs s) /\
    os_opendir demo_os dir = Some entries /\ In d_name entries /\
    "/tmp/bin/tool" = dir +:+ "/" +:+ d_name /\
    os_stat demo_os "/tmp/bin/tool" = Some st_mode /\
    S_ISREG st_mode = true /\
    Z.testbit st_mode 6 || Z.testbit st_mode 3 || Z.testbit st_mode 0 = true /\
    os_realpath demo_os "/tmp/bin/tool" = Some resolved /\
    is_denied "/tmp/bin/tool" resolved = false.
Proof.
  assert (H : In "/tmp/bin/tool" (rule_attempts (trace demo_os)))
    by (vm_compute; tauto).
  split; [exact H|].
  exact (rule_attempts_sound demo_os "/tmp/bin/tool" H).
Defined.

(** C2.  On C strings, [is_denied (path, resolved)] answers true exactly
    when [path] or [resolved] is, byte for byte, an entry of
    [DENIED_SHELLS]: in particular for every entry with whatever it
    resolves to, and for no pair of strings outside the list, whether a
    prefix, an extension or another spelling of an entry. *)
Theorem is_denied_exact (path resolved : string) :
  cstring path = true -> cstring resolved = true ->
  (is_denied path resolved = true <->
   In path DENIED_SHELLS \/ In resolved DENIED_SHELLS)
  /\ (In path DENIED_SHELLS -> is_denied path resolved = true)
  /\ (~ In path DENIED_SHELLS -> ~ In resolved DENIED_SHELLS ->
      is_denied path resolved = false).
Proof.
  intros Hp Hr.
  assert (Hiff : is_denied path resolved = true <->
                 In path DENIED_SHELLS \/ In resolved DENIED_SHELLS).
  { split.
    - apply is_denied_from_miss; auto using DENIED_SHELLS_cstrings.
    - apply is_denied_from_hit. }
  split; [exact Hiff|split].
  - intros H. apply Hiff. now left.
  - intros H1 H2. apply not_true_is_false. rewrite Hiff. tauto.
Qed.

Lemma is_denied_exact_witness :
  is_denied "/tmp/bin/myshell" "/bin/bash" = true /\
  is_denied "/bin/bas" "/bin/bash2" = false /\
  is_denied "/BIN/BASH" "/bin/Bash" = false.
Proof.
  assert (Hout : forall p, forallb (fun s => negb (String.eqb p s))
                             DENIED_SHELLS = true ->
                           ~ In p DENIED_SHELLS).
  { intros p Hall Hin. apply (forallb_In _ _ _ Hall) in Hin.
    rewrite String.eqb_refl in Hin. discriminate. }
  destruct (is_denied_exact "/tmp/bin/myshell" "/bin/bash" eq_refl eq_refl)
    as (Hiff & _ & _).
  destruct (is_denied_exact "/bin/bas" "/bin/bash2" eq_refl eq_refl)
    as (_ & _ & Hprefix).
  destruct (is_denied_exact "/BIN/BASH" "/bin/Bash" eq_refl eq_refl)
    as (_ & _ & Hcase).
  split; [|split].
  - apply Hiff. right. now left.
  - apply Hprefix; apply Hout; reflexivity.
  - apply Hcase; apply Hout; reflexivity.
Defined.

(** C3.  When PATH is unset or empty the process ends with status 126; no
    directory was opened or read, no file examined, and no rule addition
    attempted. *)
Theorem empty_PATH_aborts (os : OS) :
  os_PATH os = None \/ os_PATH os = Some EmptyString ->
  result os = Exited 126 /\
  (forall e, In e (trace os) ->
             is_enumeration e = false /\ is_rule_addition e = false) /\
  opened_dirs (trace os) = [] /\
  rule_attempts (trace os) = [].
Proof.
  intros HPATH. run_cases os;
    try (exfalso; destruct HPATH; congruence).
  all: split; [reflexivity|]; split; [|split; reflexivity].
  all: intros e Hin; simpl in Hin; intuition (subst; reflexivity).
Qed.

Lemma empty_PATH_aborts_witness :
  result (demo_with 3 None true 0 0) = Exited 126 /\
  result (demo_with 3 (Some EmptyString) true 0 0) = Exited 126 /\
  rule_attempts (trace (demo_with 3 (Some EmptyString) true 0 0)) = [].
Proof.
  split; [|split].
  - apply (empty_PATH_aborts (demo_with 3 None true 0 0)). now left.
  - apply (empty_PATH_aborts (demo_with 3 (Some EmptyString) true 0 0)).
    now right.
  - apply (empty_PATH_aborts (demo_with 3 (Some EmptyString) true 0 0)).
    now right.
Defined.

(** C4.  Provided the ruleset was created, PATH is set and not empty and
    [strdup] found memory, then for every answer of [opendir], [stat],
    [realpath], [open] and [landlock_add_rule]: every directory of PATH is
    tried, in order; every entry of every directory that opened is read;
    a rule is attempted for every entry that passes the tests, whatever
    became of the others; the process writes no diagnostic and does not
    exit before it reaches the activation; and how it ends depends on the
    two activation calls alone. *)
Theorem candidate_failures_not_fatal (os : OS) (s : string) :
  0 <= os_create_ruleset os ->
  os_PATH os = Some s -> s <> EmptyString ->
  os_strdup os = true ->
  opened_dirs (trace os) = path_dirs s /\
  (forall dir entries d_name,
     In dir (path_dirs s) -> os_opendir os dir = Some entries ->
     In d_name entries ->
     In (Ev_readdir dir d_name) (trace os) /\
     (allowable os (dir +:+ "/" +:+ d_name) = true ->
      In (dir +:+ "/" +:+ d_name) (rule_attempts (trace os)))) /\
  (exists before after,
     trace os = before ++ Ev_prctl_no_new_privs (os_prctl os) :: after /\
     diagnostics before = [] /\
     forall status, ~ In (Ev_exit status) before) /\
  (result os = Done tt <-> os_prctl os = 0 /\ os_restrict_self os = 0).
Proof.
  intros Hfd HPATH Hne Hdup.
  assert (Hbefore : forall fd,
    diagnostics ([Ev_landlock_create_ruleset fd; Ev_getenv "PATH" (Some s);
                  Ev_strdup s true] ++ enumeration os fd s ++ [Ev_free]) = []
    /\ forall status,
         ~ In (Ev_exit status)
              ([Ev_landlock_create_ruleset fd; Ev_getenv "PATH" (Some s);
                Ev_strdup s true] ++ enumeration os fd s ++ [Ev_free])).
  { intros fd. split.
    - rewrite !diagnostics_app, (diagnostics_scan _ (enumeration_events _ _ _)).
      reflexivity.
    - intros status Hin. rewrite !in_app_iff in Hin. simpl in Hin.
      destruct Hin as [Hin|[Hin|Hin]]; [intuition discriminate| |
                                        intuition discriminate].
      apply enumeration_kinds in Hin as (_ & Hexit & _). now apply (Hexit status). }
  run_cases os; try lia; try congruence;
    try (exfalso; destruct H0; congruence).
  all: assert (s0 = s) by congruence; subst s0.
  all: split; [rewrite !opened_dirs_app, enumeration_opened; simpl;
               now rewrite app_nil_r|].
  all: split; [intros dir entries d_name Hdir Hopen Hname; split;
               [rewrite !in_app_iff; right; left;
                eapply enumeration_readdir; eauto
               |intros Hok; rewrite !rule_attempts_app, !in_app_iff;
                right; left; apply enumeration_attempts; eauto 8]|].
  all: split;
    [match goal with
     | |- context [?pre ++ ?enum ++ Ev_free :: _ :: ?rest] =>
         exists (pre ++ enum ++ [Ev_free]), rest
     end;
     split; [rewrite <- !app_assoc; simpl;
             repeat match goal with
                    | H : os_prctl _ = 0 |- _ => rewrite H
                    end; reflexivity
            |apply Hbefore]|].
  - split; [discriminate|tauto].
  - split; [discriminate|tauto].
  - split; auto.
Qed.

Lemma candidate_failures_not_fatal_witness :
  opened_dirs (trace demo_os) = ["/tmp/bin"; "/nonexistent"; "/bin"] /\
  In "/bin/ls" (rule_attempts (trace demo_os)) /\
  result demo_os = Done tt.
Proof.
  pose proof (candidate_failures_not_fatal demo_os
                ":/tmp/bin:/nonexistent::/bin") as H.
  destruct H as (Hdirs & Hentries & _ & Hend);
    [vm_compute; discriminate|reflexivity|discriminate|reflexivity|].
  split; [exact Hdirs|split].
  - apply (Hentries "/bin" [".."; "sh"; "ls"] "ls");
      [vm_compute; tauto|reflexivity|simpl; tauto|reflexivity].
  - apply Hend. split; reflexivity.
Defined.

(** C5, at the input where the code departs from it.  PATH is set and
    memory runs out in [strdup]: the process ends with status 126 and has
    written nothing to the error stream. *)
Theorem strdup_failure_silent :
  trace (demo_with 3 (Some "/tmp/bin") false 0 0) =
  [Ev_landlock_create_ruleset 3;
   Ev_getenv "PATH" (Some "/tmp/bin");
   Ev_strdup "/tmp/bin" false;
   Ev_close 3;
   Ev_exit 126] /\
  result (demo_with 3 (Some "/tmp/bin") false 0 0) = Exited 126 /\
  diagnostics (trace (demo_with 3 (Some "/tmp/bin") false 0 0)) = [].
Proof. repeat split; reflexivity. Qed.

(** C6.  When the kernel refuses to create the ruleset the process writes
    its diagnostic and ends with status 126, and these are all the calls
    it makes: no step of the enumeration and no rule addition. *)
Theorem no_ruleset_aborts (os : OS) :
  os_create_ruleset os < 0 ->
  trace os = [Ev_landlock_create_ruleset (os_create_ruleset os);
              Ev_perror "landlock_sandboxer: create_ruleset";
              Ev_exit 126] /\
  result os = Exited 126 /\
  List.filter is_rule_addition (trace os) = [] /\
  List.filter is_enumeration (trace os) = [] /\
  ruleset (final os) = ∅ /\ domain (final os) = None.
Proof.
  intros Hfd. run_cases os; try lia.
  repeat split; reflexivity.
Qed.

Lemma no_ruleset_aborts_witness :
  result (demo_with (-1) (Some "/tmp/bin") true 0 0) = Exited 126 /\
  List.filter is_rule_addition
    (trace (demo_with (-1) (Some "/tmp/bin") true 0 0)) = [].
Proof.
  split.
  - apply (no_ruleset_aborts (demo_with (-1) (Some "/tmp/bin") true 0 0)).
    reflexivity.
  - apply (no_ruleset_aborts (demo_with (-1) (Some "/tmp/bin") true 0 0)).
    reflexivity.
Defined.

(** C7.  In every run, a call of [landlock_restrict_self] comes after a
    call of [prctl] that set the no-new-privileges flag, and the process is
    unrestricted until then; a [prctl] or a [landlock_restrict_self] that
    fails ends the process with status 126, unrestricted; and when the
    constructor returns, the flag is set and the process is restricted to
    the ruleset it built. *)
Theorem lock_precedes_commit (os : OS) :
  (forall before fd ret after,
     trace os = before ++ Ev_landlock_restrict_self fd ret :: after ->
     In (Ev_prctl_no_new_privs 0) before /\
     no_new_privs (kernel_run (boot os) before) = true /\
     domain (kernel_run (boot os) before) = None) /\
  (forall ret,
     In (Ev_prctl_no_new_privs ret) (trace os) -> ret <> 0 ->
     result os = Exited 126 /\ domain (final os) = None /\
     forall fd ret', ~ In (Ev_landlock_restrict_self fd ret') (trace os)) /\
  (forall fd ret,
     In (Ev_landlock_restrict_self fd ret) (trace os) -> ret <> 0 ->
     result os = Exited 126 /\ domain (final os) = None) /\
  (result os = Done tt ->
   no_new_privs (final os) = true /\
   domain (final os) = Some (ruleset (final os)) /\
   In (Ev_landlock_restrict_self (os_create_ruleset os) 0) (trace os)).
Proof.
  split; [|split; [|split]].
  - (* the lock comes first *)
    intros before fd ret after. run_cases os; intros E.
    1-3: exfalso; eapply no_commit_split; [|exact E]; reflexivity.
    + exfalso. eapply no_commit_split; [|exact E].
      now rewrite !forallb_app, enumeration_no_commit.
    + apply activation_split in E; [subst before|reflexivity].
      split; [rewrite !in_app_iff; simpl; auto|].
      rewrite !kernel_run_app, kernel_after_enumeration. simpl. auto.
    + apply activation_split in E; [subst before|reflexivity].
      split; [rewrite !in_app_iff; simpl; auto|].
      rewrite !kernel_run_app, kernel_after_enumeration. simpl. auto.
  - (* the lock fails *)
    intros ret. run_cases os; intros Hin Hret; in_trace Hin;
      try (exfalso; apply enumeration_kinds in Hin as (_ & _ & Hp & _);
           now apply (Hp ret)).
    split; [reflexivity|split].
    + rewrite !kernel_run_app, kernel_after_enumeration. simpl.
      now destruct (os_prctl os =? 0).
    + intros fd ret' Hin'.
      apply in_split in Hin' as (before & after & E).
      eapply no_commit_split; [|exact E].
      now rewrite !forallb_app, enumeration_no_commit.
  - (* the commit fails *)
    intros fd ret. run_cases os; intros Hin Hret; in_trace Hin;
      try (exfalso; apply enumeration_kinds in Hin as (_ & _ & _ & Hc);
           now apply (Hc fd ret)).
    injection Hin as <- <-. split; [reflexivity|].
    rewrite !kernel_run_app, kernel_after_enumeration. simpl.
    now rewrite (proj2 (Z.eqb_neq _ _) Hret).
  - (* the constructor returns *)
    run_cases os; try discriminate. intros _.
    rewrite !kernel_run_app, kernel_after_enumeration. simpl.
    split; [reflexivity|split; [reflexivity|]].
    rewrite !in_app_iff. simpl. auto 10.
Qed.

Lemma lock_precedes_commit_witness :
  no_new_privs (final demo_os) = true /\
  domain (final demo_os) = Some (ruleset (final demo_os)) /\
  result (demo_with 3 (Some "/bin") true (-1) 0) = Exited 126 /\
  result (demo_with 3 (Some "/bin") true 0 (-1)) = Exited 126.
Proof.
  destruct (lock_precedes_commit demo_os) as (_ & _ & _ & Hret).
  destruct (Hret eq_refl) as (Hnnp & Hdom & _).
  destruct (lock_precedes_commit (demo_with 3 (Some "/bin") true (-1) 0))
    as (_ & Hlock & _).
  destruct (lock_precedes_commit (demo_with 3 (Some "/bin") true 0 (-1)))
    as (_ & _ & Hcommit & _).
  split; [exact Hnnp|split; [exact Hdom|split]].
  - apply (Hlock (-1)); [vm_compute; tauto|discriminate].
  - apply (Hcommit 3 (-1)); [vm_compute; tauto|discriminate].
Defined.

(** C8.  Two rule additions for one file, through one path or through two
    paths that name it, leave the kernel in the state one addition leaves
    it in and return what one returns.  A run that visits a directory of
    PATH a second time ends as the run that visits it once: the same
    kernel state, so the same allowed set, the same result and the same
    diagnostics. *)
Theorem duplicate_rules_harmless (os : OS) :
  (forall fd path path' k,
     os_file os path' = os_file os path ->
     0 <= os_open os path -> 0 <= os_open os path' ->
     snd (add_exec_rule os fd path ;; add_exec_rule os fd path') =
     snd (add_exec_rule os fd path) /\
     kernel_run k
       (fst (add_exec_rule os fd path ;; add_exec_rule os fd path')) =
     kernel_run k (fst (add_exec_rule os fd path))) /\
  (forall s dir,
     os_PATH os = Some s -> In dir (path_dirs s) ->
     final (with_PATH os (Some (s +:+ ":" +:+ dir))) = final os /\
     result (with_PATH os (Some (s +:+ ":" +:+ dir))) = result os /\
     diagnostics (trace (with_PATH os (Some (s +:+ ":" +:+ dir)))) =
     diagnostics (trace os)).
Proof.
  split.
  - intros fd path path' k. apply add_exec_rule_twice.
  - intros s dir. apply revisit_final.
Qed.

Lemma duplicate_rules_harmless_witness :
  kernel_run (boot demo_os)
    (fst (add_exec_rule demo_os 3 "/tmp/bin/ls" ;;
          add_exec_rule demo_os 3 "/bin/ls")) =
  kernel_run (boot demo_os) (fst (add_exec_rule demo_os 3 "/tmp/bin/ls")) /\
  final (with_PATH demo_os (Some ":/tmp/bin:/nonexistent::/bin:/tmp/bin")) =
  final demo_os.
Proof.
  destruct (duplicate_rules_harmless demo_os) as [Hrule Hrun]. split.
  - apply (Hrule 3 "/tmp/bin/ls" "/bin/ls" (boot demo_os));
      [reflexivity|vm_compute; discriminate|vm_compute; discriminate].
  - apply (Hrun ":/tmp/bin:/nonexistent::/bin" "/tmp/bin");
      [reflexivity|vm_compute; tauto].
Defined.

(** C9.  What [snprintf] leaves in the buffer is shorter than [PATH_MAX].
    An entry whose [dir/name] does not fit is skipped without a single
    call: no [stat], no [realpath], no rule addition.  Every path that
    [stat], [realpath] or [open] is called on, for an entry and in a whole
    run, is the complete [dir/name] of an entry that was read, and it is
    shorter than [PATH_MAX]. *)
Theorem long_paths_skipped (os : OS) (fd : Z) (dir d_name : string) :
  Z.of_nat (String.length (fst (snprintf PATH_MAX dir d_name))) < PATH_MAX /\
  (PATH_MAX <= Z.of_nat (String.length (dir +:+ "/" +:+ d_name)) ->
   scan_entry os fd dir d_name = ([], Done tt)) /\
  (forall e path,
     In e (fst (scan_entry os fd dir d_name)) -> event_path e = Some path ->
     path = dir +:+ "/" +:+ d_name /\
     Z.of_nat (String.length path) < PATH_MAX) /\
  (forall e path,
     In e (trace os) -> event_path e = Some path ->
     exists dir' d_name',
       In (Ev_readdir dir' d_name') (trace os) /\
       path = dir' +:+ "/" +:+ d_name' /\
       Z.of_nat (String.length path) < PATH_MAX).
Proof.
  split; [apply snprintf_buffer; reflexivity|].
  split; [apply scan_entry_too_long|].
  split; [apply scan_entry_paths|].
  intros e path Hin Hpath.
  assert (Hmain : forall s pre post,
    In e (pre ++ enumeration os (os_create_ruleset os) s ++ post) ->
    forallb (fun e => match event_path e with
                      | Some _ => false
                      | None => true
                      end) (pre ++ post) = true ->
    exists dir' d_name',
      In (Ev_readdir dir' d_name')
         (pre ++ enumeration os (os_create_ruleset os) s ++ post) /\
      path = dir' +:+ "/" +:+ d_name' /\
      Z.of_nat (String.length path) < PATH_MAX).
  { intros s pre post Hin' Hsmall.
    assert (He : In e (enumeration os (os_create_ruleset os) s)).
    { rewrite !in_app_iff in Hin'.
      destruct Hin' as [Hin'|[Hin'|Hin']]; [exfalso|assumption|exfalso].
      - pose proof (forallb_In _ _ _ Hsmall
                      (in_or_app _ _ _ (or_introl Hin'))) as Hn.
        simpl in Hn. rewrite Hpath in Hn. discriminate.
      - pose proof (forallb_In _ _ _ Hsmall
                      (in_or_app _ _ _ (or_intror Hin'))) as Hn.
        simpl in Hn. rewrite Hpath in Hn. discriminate. }
    destruct (enumeration_paths _ _ _ _ _ He Hpath)
      as (dir' & d_name' & Hread & Heq & Hlen).
    exists dir', d_name'. rewrite !in_app_iff. auto. }
  revert Hin. run_cases os; intros Hin;
    try (simpl in Hin; exfalso;
         repeat (destruct Hin as [<-|Hin]; [discriminate Hpath|]); exact Hin);
    now apply Hmain.
Qed.

Lemma long_paths_skipped_witness :
  scan_entry demo_os 3 long_dir "x" = ([], Done tt).
Proof.
  apply (long_paths_skipped demo_os 3 long_dir "x").
  vm_compute. discriminate.
Defined.

(** C10.  The directories the loop visits are the components of PATH that
    are not empty, in order.  A colon in front, a colon at the end and a
    second colon between two components change nothing.  In no run is
    [opendir] called on the empty string, so an empty component is never
    read as the current directory. *)
Theorem empty_components_ignored :
  (forall s, path_dirs s = List.filter nonempty (components s)) /\
  (forall s, path_dirs (":" +:+ s) = path_dirs s) /\
  (forall s, path_dirs (s +:+ ":") = path_dirs s) /\
  (forall a b, path_dirs (a +:+ "::" +:+ b) = path_dirs (a +:+ ":" +:+ b)) /\
  (forall os dir, In dir (opened_dirs (trace os)) -> dir <> EmptyString) /\
  (forall os path,
     In path (rule_attempts (trace os)) ->
     exists dir d_name, dir <> EmptyString /\ path = dir +:+ "/" +:+ d_name).
Proof.
  assert (Hfront : forall s, path_dirs (":" +:+ s) = path_dirs s).
  { intros s. now rewrite !path_dirs_components. }
  split; [exact path_dirs_components|].
  split; [exact Hfront|].
  split.
  { intros s. change (s +:+ ":") with (s +:+ ":" +:+ "").
    rewrite path_dirs_app, path_dirs_step. simpl. apply app_nil_r. }
  split.
  { intros a b. change (a +:+ "::" +:+ b) with (a +:+ ":" +:+ ":" +:+ b).
    now rewrite !path_dirs_app, Hfront. }
  split.
  - intros os dir. run_cases os; simpl;
      rewrite ?opened_dirs_app, ?enumeration_opened; simpl;
      rewrite ?app_nil_r; try tauto; apply path_dirs_nonempty.
  - intros os path Hin.
    destruct (rule_attempts_origin os path Hin)
      as (s & dir & _ & d_name & _ & Hdir & _ & _ & Hpath & _).
    exists dir, d_name. split; [|exact Hpath].
    eapply path_dirs_nonempty; eauto.
Qed.

Lemma empty_components_ignored_witness :
  path_dirs ":/tmp/bin:/nonexistent::/bin" =
  ["/tmp/bin"; "/nonexistent"; "/bin"] /\
  "/bin" <> EmptyString.
Proof.
  destruct empty_components_ignored as (Hdirs & _ & _ & _ & Hopen & _).
  split.
  - rewrite Hdirs. reflexivity.
  - apply (Hopen demo_os "/bin"). vm_compute. tauto.
Defined.

(** * Further properties of the code *)

(** ** Calls in their context *)

Lemma split_app {A : Type} (l1 l2 before after : list A) (x : A) :
  l1 ++ l2 = before ++ x :: after ->
  (exists mid, l1 = before ++ x :: mid /\ after = mid ++ l2) \/
  (exists mid, before = l1 ++ mid /\ l2 = mid ++ x :: after).
Proof.
  revert before. induction l1 as [|a l1 IH]; intros before E.
  - right. exists before. auto.
  - destruct before as [|b before]; simpl in E; injection E as <- E.
    + left. exists l1. subst after. auto.
    + apply IH in E as [(mid & -> & ->)|(mid & -> & ->)];
        [left|right]; exists mid; auto.
Qed.

Lemma everywhere_nil P : everywhere P [].
Proof. intros [|b before] x after E; discriminate E. Qed.

Lemma everywhere_app P l1 l2 :
  extensible P -> everywhere P l1 -> everywhere P l2 ->
  everywhere P (l1 ++ l2).
Proof.
  intros Hext H1 H2 before x after E.
  apply split_app in E as [(mid & -> & ->)|(mid & -> & ->)].
  - apply (Hext [] l2 before x mid). now apply H1.
  - rewrite <- (app_nil_r after). apply (Hext l1 [] mid x after).
    now apply H2.
Qed.

Lemma everywhere_flat_map {A : Type} P (f : A -> list event) (l : list A) :
  extensible P -> (forall a, In a l -> everywhere P (f a)) ->
  everywhere P (flat_map f l).
Proof.
  intros Hext. induction l as [|a l IH]; intros H; simpl.
  - apply everywhere_nil.
  - apply everywhere_app; [assumption|apply H; now left|].
    apply IH. intros a' Ha'. apply H. now right.
Qed.

(** Every cut of a list that is written out. *)
Ltac cuts :=
  let before := fresh "before" in
  let x := fresh "x" in
  let after := fresh "after" in
  let E := fresh "E" in
  intros before x after E;
  repeat (destruct before as [|? before]; simpl in E;
          [injection E as <- <-|injection E as <- E]);
  try (destruct before; discriminate E).

Lemma open_context_extensible os fd : extensible (open_context os fd).
Proof.
  intros l r before x after H path fd' Hx.
  destruct (H path fd' Hx) as ((b & m & res & ->) & Hfd & Hafter).
  split; [|split; [exact Hfd|]].
  - exists (l ++ b), m, res. now rewrite app_assoc.
  - intros Hpos. destruct (Hafter Hpos) as (rest & ->).
    now exists (rest ++ r).
Qed.

Lemma add_rule_context_extensible os fd : extensible (add_rule_context os fd).
Proof.
  intros l r before x after H rfd file ret Hx.
  destruct (H rfd file ret Hx)
    as (b & path & rest & -> & Hfd & Hr & Hf & Hret & ->).
  exists (l ++ b), path, (rest ++ r). rewrite app_assoc. auto 10.
Qed.

Lemma scan_entry_contexts os fd dir d_name :
  everywhere (open_context os fd) (fst (scan_entry os fd dir d_name)) /\
  everywhere (add_rule_context os fd) (fst (scan_entry os fd dir d_name)).
Proof.
  scan_cases; subst; split; cuts.
  all: try (intros ? ? Hx; discriminate Hx).
  all: try (intros ? ? ? Hx; discriminate Hx).
  - intros path fd' [= <- <-]. apply Z.ltb_lt in Hopen.
    split; [now exists [], st_mode, resolved|split; [reflexivity|lia]].
  - intros path fd' [= <- <-].
    split; [now exists [], st_mode, resolved|split; [reflexivity|]].
    intros _. now exists [].
  - intros rfd file ret [= <- <- <-]. apply Z.ltb_ge in Hopen.
    exists [Ev_stat (dir +:+ "/" +:+ d_name) (Some st_mode);
            Ev_realpath (dir +:+ "/" +:+ d_name) (Some resolved)],
           (dir +:+ "/" +:+ d_name), [].
    auto 10.
Qed.

(** Calls that are no part of a rule addition satisfy both vacuously. *)
Lemma no_rule_addition_contexts os fd t :
  forallb (fun e => negb (is_rule_addition e)) t = true ->
  everywhere (open_context os fd) t /\ everywhere (add_rule_context os fd) t.
Proof.
  intros H. split; intros before x after ->;
    rewrite forallb_app in H; apply andb_prop in H as [_ H];
    simpl in H; apply andb_prop in H as [H _].
  - intros path fd' ->. discriminate H.
  - intros rfd file ret ->. discriminate H.
Qed.

Lemma scan_dir_contexts os fd dir :
  everywhere (open_context os fd) (fst (scan_dir os fd dir)) /\
  everywhere (add_rule_context os fd) (fst (scan_dir os fd dir)).
Proof.
  rewrite scan_dir_eq. cbn [fst].
  destruct (os_opendir os dir) as [entries|];
    [|now apply no_rule_addition_contexts].
  change (Ev_opendir dir true :: ?t) with ([Ev_opendir dir true] ++ t).
  split.
  - repeat apply everywhere_app;
      try apply open_context_extensible;
      try (now apply no_rule_addition_contexts).
    apply everywhere_flat_map; [apply open_context_extensible|].
    intros d_name _.
    change (Ev_readdir dir d_name :: ?t) with ([Ev_readdir dir d_name] ++ t).
    apply everywhere_app; [apply open_context_extensible| |].
    + now apply no_rule_addition_contexts.
    + apply scan_entry_contexts.
  - repeat apply everywhere_app;
      try apply add_rule_context_extensible;
      try (now apply no_rule_addition_contexts).
    apply everywhere_flat_map; [apply add_rule_context_extensible|].
    intros d_name _.
    change (Ev_readdir dir d_name :: ?t) with ([Ev_readdir dir d_name] ++ t).
    apply everywhere_app; [apply add_rule_context_extensible| |].
    + now apply no_rule_addition_contexts.
    + apply scan_entry_contexts.
Qed.

Lemma enumeration_contexts os fd s :
  everywhere (open_context os fd) (enumeration os fd s) /\
  everywhere (add_rule_context os fd) (enumeration os fd s).
Proof.
  split; (apply everywhere_flat_map;
          [|intros dir _; apply scan_dir_contexts]).
  - apply open_context_extensible.
  - apply add_rule_context_extensible.
Qed.

Lemma trace_contexts os :
  everywhere (open_context os (os_create_ruleset os)) (trace os) /\
  everywhere (add_rule_context os (os_create_ruleset os)) (trace os).
Proof.
  run_cases os; try (now apply no_rule_addition_contexts).
  all: split.
  all: repeat apply everywhere_app;
    try apply open_context_extensible;
    try apply add_rule_context_extensible;
    try apply enumeration_contexts;
    now apply no_rule_addition_contexts.
Qed.

(** X1.  Every [open] of a run is called on a path that [stat] and
    [realpath] have just answered for; when it succeeds the next two calls
    are [landlock_add_rule], on the ruleset the run created and for the
    file behind the descriptor, and the [close] of that descriptor.  Every
    [landlock_add_rule] of a run comes directly after an [open] that
    succeeded and directly before the [close] of its descriptor: no rule
    is added for a file that was not opened, and no descriptor of a
    candidate is left open or used twice. *)
Theorem rule_addition_shape (os : OS) :
  (forall before path fd after,
     trace os = before ++ Ev_open path fd :: after ->
     (exists b st_mode resolved,
        before = b ++ [Ev_stat path (Some st_mode);
                       Ev_realpath path (Some resolved)]) /\
     fd = os_open os path /\
     (0 <= fd ->
      exists rest,
        after = Ev_landlock_add_rule (os_create_ruleset os) (os_file os path)
                  (os_add_rule os (os_file os path))
                :: Ev_close fd :: rest)) /\
  (forall before rfd file ret after,
     trace os = before ++ Ev_landlock_add_rule rfd file ret :: after ->
     exists b path rest,
       before = b ++ [Ev_open path (os_open os path)] /\
       0 <= os_open os path /\
       rfd = os_create_ruleset os /\ file = os_file os path /\
       ret = os_add_rule os file /\
       after = Ev_close (os_open os path) :: rest).
Proof.
  destruct (trace_contexts os) as [Hopen Hadd]. split.
  - intros before path fd after E. now apply (Hopen _ _ _ E).
  - intros before rfd file ret after E. now apply (Hadd _ _ _ E).
Qed.

Lemma rule_addition_shape_witness :
  exists before after,
    trace demo_os = before ++ Ev_open "/tmp/bin/tool" 4 :: after /\
    exists rest,
      after = Ev_landlock_add_rule 3 1001 0 :: Ev_close 4 :: rest.
Proof.
  destruct (rule_addition_shape demo_os) as [Hopen _].
  pose (before :=
    [Ev_landlock_create_ruleset 3;
     Ev_getenv "PATH" (Some ":/tmp/bin:/nonexistent::/bin");
     Ev_strdup ":/tmp/bin:/nonexistent::/bin" true;
     Ev_opendir "/tmp/bin" true; Ev_readdir "/tmp/bin" ".";
     Ev_stat "/tmp/bin/." (Some 16877); Ev_readdir "/tmp/bin" "tool";
     Ev_stat "/tmp/bin/tool" (Some 33261);
     Ev_realpath "/tmp/bin/tool" (Some "/tmp/bin/tool")]).
  exists before, (skipn 10 (trace demo_os)).
  assert (E : trace demo_os =
              before ++ Ev_open "/tmp/bin/tool" 4
                     :: skipn 10 (trace demo_os)) by reflexivity.
  split; [exact E|].
  destruct (Hopen _ _ _ _ E) as (_ & _ & Hafter).
  apply Hafter. discriminate.
Defined.

(** ** Directory handles *)

Lemma opendir_context_extensible : extensible opendir_context.
Proof.
  intros l r before x after H dir Hx.
  destruct (H dir Hx) as (mid & rest & -> & Hmid).
  exists mid, (rest ++ r). now rewrite <- app_assoc.
Qed.

Lemma handle_context_extensible : extensible handle_context.
Proof.
  intros l r before x after H dir Hx.
  destruct (H dir Hx) as (b & mid & -> & Hmid).
  exists (l ++ b), mid. now rewrite <- app_assoc.
Qed.

Lemma no_directory_call_contexts t :
  forallb (fun e => negb (is_directory_call e)) t = true ->
  everywhere opendir_context t /\ everywhere handle_context t.
Proof.
  intros H. split; intros before x after ->;
    rewrite forallb_app in H; apply andb_prop in H as [_ H];
    simpl in H; apply andb_prop in H as [H _].
  - intros dir ->. discriminate H.
  - intros dir [->|[d_name ->]]; discriminate H.
Qed.

Lemma readdir_loop_in_directory os fd dir entries :
  forallb (in_directory dir)
    (flat_map (fun d_name =>
       Ev_readdir dir d_name :: fst (scan_entry os fd dir d_name)) entries)
  = true.
Proof.
  apply forallb_flat_map. intros d_name _. simpl.
  rewrite String.eqb_refl. simpl.
  pose proof (scan_entry_entry_events os fd dir d_name) as H.
  apply forallb_forall. intros e He.
  apply (forallb_In _ _ _ H) in He. now destruct e.
Qed.

Lemma scan_dir_handles os fd dir :
  everywhere opendir_context (fst (scan_dir os fd dir)) /\
  everywhere handle_context (fst (scan_dir os fd dir)).
Proof.
  rewrite scan_dir_eq. cbn [fst].
  destruct (os_opendir os dir) as [entries|].
  2: { split; cuts.
       - intros d Hx. discriminate Hx.
       - intros d [Hx|[n Hx]]; discriminate Hx. }
  pose proof (readdir_loop_in_directory os fd dir entries) as Hloop.
  set (loop := flat_map _ entries) in *.
  split; intros before x after E.
  - (* the directory that was opened is closed *)
    destruct before as [|e before]; simpl in E; injection E as <- E.
    + intros d [= <-]. subst after. now exists loop, [].
    + intros d ->. exfalso.
      apply split_app in E as [(m & E & _)|(m & _ & E)].
      * rewrite E, forallb_app in Hloop.
        apply andb_prop in Hloop as [_ Hloop]. discriminate Hloop.
      * destruct m as [|? [|? ?]]; discriminate E.
  - (* reads and the close come after the open *)
    destruct before as [|e before]; simpl in E; injection E as <- E.
    + intros d [Hx|[n Hx]]; discriminate Hx.
    + apply split_app in E as [(m & E & _)|(m & -> & E)].
      * rewrite E, forallb_app in Hloop.
        apply andb_prop in Hloop as [Hbefore Hx]. simpl in Hx.
        apply andb_prop in Hx as [Hx _].
        intros d [->|[n ->]]; [discriminate Hx|].
        apply String.eqb_eq in Hx. subst d. now exists [], before.
      * destruct m as [|? [|? ?]]; try discriminate E.
        injection E as <- <-.
        intros d [[= <-]|[n Hx]]; [|discriminate Hx].
        exists [], loop. now rewrite app_nil_r.
Qed.

Lemma trace_handles os :
  everywhere opendir_context (trace os) /\ everywhere handle_context (trace os).
Proof.
  assert (Henum : forall fd s,
    everywhere opendir_context (enumeration os fd s) /\
    everywhere handle_context (enumeration os fd s)).
  { intros fd s. split; (apply everywhere_flat_map;
      [|intros dir _; apply scan_dir_handles]).
    - apply opendir_context_extensible.
    - apply handle_context_extensible. }
  run_cases os; try (now apply no_directory_call_contexts).
  all: split.
  all: repeat apply everywhere_app;
    try apply opendir_context_extensible;
    try apply handle_context_extensible;
    try apply Henum;
    now apply no_directory_call_contexts.
Qed.

(** X2.  Directory handles are used in brackets.  After every [opendir]
    that succeeded come calls for entries of that directory only, then its
    [closedir]; every [readdir] and every [closedir] has the successful
    [opendir] of its directory before it, with calls for entries of that
    directory only in between.  So no directory stays open, none is read
    or closed without having been opened, and two directories are never
    open at once. *)
Theorem directory_handles (os : OS) :
  (forall before dir after,
     trace os = before ++ Ev_opendir dir true :: after ->
     exists mid rest,
       after = mid ++ Ev_closedir dir :: rest /\
       forallb (in_directory dir) mid = true) /\
  (forall before dir after,
     trace os = before ++ Ev_closedir dir :: after ->
     exists b mid,
       before = b ++ Ev_opendir dir true :: mid /\
       forallb (in_directory dir) mid = true) /\
  (forall before dir d_name after,
     trace os = before ++ Ev_readdir dir d_name :: after ->
     exists b mid,
       before = b ++ Ev_opendir dir true :: mid /\
       forallb (in_directory dir) mid = true).
Proof.
  destruct (trace_handles os) as [Hopen Hhandle]. split; [|split].
  - intros before dir after E. now apply (Hopen _ _ _ E).
  - intros before dir after E. apply (Hhandle _ _ _ E). now left.
  - intros before dir d_name after E. apply (Hhandle _ _ _ E). right. eauto.
Qed.

Lemma directory_handles_witness :
  exists mid rest,
    skipn 4 (trace demo_os) = mid ++ Ev_closedir "/tmp/bin" :: rest /\
    forallb (in_directory "/tmp/bin") mid = true.
Proof.
  destruct (directory_handles demo_os) as [Hopen _].
  apply (Hopen (firstn 3 (trace demo_os)) "/tmp/bin" (skipn 4 (trace demo_os))).
  reflexivity.
Defined.

(** ** The ruleset descriptor and the copy of PATH *)

Lemma enumeration_kind os fd s e :
  In e (enumeration os fd s) -> is_scan_event e = true.
Proof. apply forallb_In, enumeration_events. Qed.

(** X3.  Once the ruleset is created its descriptor is closed on every
    path, the fatal ones included, and the [close] is the last call but
    for a diagnostic and [_exit]: nothing uses the descriptor after it.
    When the creation failed there is no descriptor, and the run closes
    none. *)
Theorem ruleset_descriptor_closed (os : OS) :
  (0 <= os_create_ruleset os ->
   exists before after,
     trace os = before ++ Ev_close (os_create_ruleset os) :: after /\
     forallb (fun e => match e with
                       | Ev_fprintf_stderr _ | Ev_exit _ => true
                       | _ => false
                       end) after = true) /\
  (os_create_ruleset os < 0 -> forall fd, ~ In (Ev_close fd) (trace os)).
Proof.
  split.
  - intros Hfd. run_cases os; try lia.
    + now exists [Ev_landlock_create_ruleset (os_create_ruleset os);
                  Ev_getenv "PATH" (os_PATH os)],
                 [Ev_fprintf_stderr ("landlock_sandboxer: PATH is empty" +:+ LF);
                  Ev_exit 126].
    + now exists [Ev_landlock_create_ruleset (os_create_ruleset os);
                  Ev_getenv "PATH" (Some s); Ev_strdup s false],
                 [Ev_exit 126].
    + exists ([Ev_landlock_create_ruleset (os_create_ruleset os);
               Ev_getenv "PATH" (Some s); Ev_strdup s true]
              ++ enumeration os (os_create_ruleset os) s
              ++ [Ev_free; Ev_prctl_no_new_privs (os_prctl os);
                  Ev_perror "landlock_sandboxer: prctl(NO_NEW_PRIVS)"]),
             [Ev_exit 126].
      split; [now rewrite <- !app_assoc|reflexivity].
    + exists ([Ev_landlock_create_ruleset (os_create_ruleset os);
               Ev_getenv "PATH" (Some s); Ev_strdup s true]
              ++ enumeration os (os_create_ruleset os) s
              ++ [Ev_free; Ev_prctl_no_new_privs 0;
                  Ev_landlock_restrict_self (os_create_ruleset os)
                    (os_restrict_self os);
                  Ev_perror "landlock_sandboxer: restrict_self"]),
             [Ev_exit 126].
      split; [now rewrite <- !app_assoc|reflexivity].
    + exists ([Ev_landlock_create_ruleset (os_create_ruleset os);
               Ev_getenv "PATH" (Some s); Ev_strdup s true]
              ++ enumeration os (os_create_ruleset os) s
              ++ [Ev_free; Ev_prctl_no_new_privs 0;
                  Ev_landlock_restrict_self (os_create_ruleset os) 0]),
             [].
      split; [now rewrite <- !app_assoc|reflexivity].
  - intros Hfd fd. run_cases os; try lia.
    intros Hin. in_trace Hin.
Qed.

Lemma ruleset_descriptor_closed_witness :
  exists before after,
    trace demo_os = before ++ Ev_close 3 :: after /\
    forallb (fun e => match e with
                      | Ev_fprintf_stderr _ | Ev_exit _ => true
                      | _ => false
                      end) after = true.
Proof.
  apply (ruleset_descriptor_closed demo_os). vm_compute. discriminate.
Defined.

(** X4.  The copy of PATH is freed exactly once on every path on which it
    was made, the fatal ones after the enumeration included, and only
    after the last call of the enumeration, whose directory names point
    into it.  [free] is not called when there is no copy. *)
Theorem path_copy_freed (os : OS) :
  (forall s, In (Ev_strdup s true) (trace os) ->
   exists before after,
     trace os = before ++ Ev_free :: after /\
     ~ In Ev_free before /\ ~ In Ev_free after /\
     forallb (fun e => negb (is_enumeration e || is_rule_addition e)) after
     = true) /\
  (In Ev_free (trace os) -> exists s, In (Ev_strdup s true) (trace os)).
Proof.
  assert (Hfree : forall fd s, ~ In Ev_free (enumeration os fd s)).
  { intros fd s Hin. apply enumeration_kind in Hin. discriminate Hin. }
  assert (Hbefore : forall fd s,
    ~ In Ev_free ([Ev_landlock_create_ruleset fd; Ev_getenv "PATH" (Some s);
                   Ev_strdup s true] ++ enumeration os fd s)).
  { intros fd s Hin. apply in_app_or in Hin as [Hin|Hin].
    - simpl in Hin. intuition discriminate.
    - now apply Hfree in Hin. }
  split.
  - intros s0. run_cases os; intros Hin.
    1-3: exfalso; simpl in Hin; intuition discriminate.
    all: eexists (_ ++ enumeration os _ s), _;
      (split; [rewrite <- app_assoc; reflexivity|]);
      (split; [apply Hbefore|]);
      (split; [simpl; intuition discriminate|reflexivity]).
  - run_cases os; intros Hin.
    1-3: exfalso; simpl in Hin; intuition discriminate.
    all: exists s; now left + (right; right; now left).
Qed.

Lemma path_copy_freed_witness :
  exists before after,
    trace demo_os = before ++ Ev_free :: after /\
    ~ In Ev_free before /\ ~ In Ev_free after /\
    forallb (fun e => negb (is_enumeration e || is_rule_addition e)) after
    = true.
Proof.
  apply (proj1 (path_copy_freed demo_os) ":/tmp/bin:/nonexistent::/bin").
  vm_compute. tauto.
Defined.

(** ** Returning and exiting *)

(** X5.  The constructor returns exactly when the process has become
    restricted: in every run that ends in [_exit] the process was never
    restricted, and in every run that returns it is.  A run that returns
    has written nothing to the error stream and has not called [_exit],
    and its last call is the [close] of the ruleset descriptor. *)
Theorem return_means_restricted (os : OS) :
  (result os = Done tt <-> domain (final os) <> None) /\
  (result os = Done tt ->
   diagnostics (trace os) = [] /\
   (forall status, ~ In (Ev_exit status) (trace os)) /\
   exists before, trace os = before ++ [Ev_close (os_create_ruleset os)]).
Proof.
  split.
  - run_cases os;
      rewrite ?kernel_run_app, ?kernel_after_enumeration; simpl;
      repeat match goal with
             | H : os_prctl os <> 0 |- _ =>
                 rewrite (proj2 (Z.eqb_neq _ _) H)
             | H : os_restrict_self os <> 0 |- _ =>
                 rewrite (proj2 (Z.eqb_neq _ _) H)
             end; simpl;
      split; intros Hx; try discriminate Hx; try congruence; reflexivity.
  - run_cases os; try discriminate. intros _. split; [|split].
    + rewrite !diagnostics_app,
        (diagnostics_scan _ (enumeration_events _ _ _)). reflexivity.
    + intros status Hin. in_trace Hin.
      apply enumeration_kinds in Hin as (_ & Hexit & _).
      now apply (Hexit status).
    + exists ([Ev_landlock_create_ruleset (os_create_ruleset os);
               Ev_getenv "PATH" (Some s); Ev_strdup s true]
              ++ enumeration os (os_create_ruleset os) s
              ++ [Ev_free; Ev_prctl_no_new_privs 0;
                  Ev_landlock_restrict_self (os_create_ruleset os) 0]).
      now rewrite <- !app_assoc.
Qed.

Lemma return_means_restricted_witness :
  domain (final demo_os) <> None /\ diagnostics (trace demo_os) = [].
Proof.
  destruct (return_means_restricted demo_os) as [Hiff Hret]. split.
  - now apply Hiff.
  - now apply Hret.
Defined.

Lemma fatal_exit_protocol_witness :
  (exists before,
     trace (demo_with 3 (Some "/bin") true 0 (-1)) = before ++ [Ev_exit 126])
  /\ exists d, diagnostics (trace (demo_with (-1) None true 0 0)) = [d].
Proof.
  destruct (fatal_exit_protocol (demo_with 3 (Some "/bin") true 0 (-1)) 126
              eq_refl) as (_ & Hlast & _).
  destruct (fatal_exit_protocol (demo_with (-1) None true 0 0) 126 eq_refl)
    as (_ & _ & [Hdiag|(Hnone & _)]).
  - split; assumption.
  - discriminate Hnone.
Defined.

(** ** The allow-list the process ends with *)

Lemma domain_final os A :
  domain (final os) = Some A -> A = ruleset (final os).
Proof.
  run_cases os;
    rewrite ?kernel_run_app, ?kernel_after_enumeration; simpl;
    repeat match goal with
           | H : os_prctl os <> 0 |- _ =>
               rewrite (proj2 (Z.eqb_neq _ _) H)
           | H : os_restrict_self os <> 0 |- _ =>
               rewrite (proj2 (Z.eqb_neq _ _) H)
           end; simpl; congruence.
Qed.

Lemma rule_attempts_open t path :
  In path (rule_attempts t) -> exists fd, In (Ev_open path fd) t.
Proof.
  induction t as [|e t IH]; simpl; [tauto|].
  intros Hin. apply in_app_or in Hin as [Hin|Hin].
  - destruct e; simpl in Hin; try contradiction.
    destruct Hin as [<-|[]]. eauto.
  - destruct (IH Hin) as [fd Hfd]. eauto.
Qed.

(** X7.  What the restricted process may execute, from above.  Every file
    of the domain the run committed, and every file of the ruleset it
    built, is the file behind [dir/name] for a directory of PATH that
    opened and one of its entries that passed the tests of [scan_entry],
    that [open] opened and that the kernel accepted a rule for. *)
Theorem final_allow_list_sound (os : OS) (file : Z) :
  file ∈ ruleset (final os) \/
  (exists A, domain (final os) = Some A /\ file ∈ A) ->
  exists s dir entries d_name,
    os_PATH os = Some s /\ In dir (path_dirs s) /\
    os_opendir os dir = Some entries /\ In d_name entries /\
    file = os_file os (dir +:+ "/" +:+ d_name) /\
    allowable os (dir +:+ "/" +:+ d_name) = true /\
    0 <= os_open os (dir +:+ "/" +:+ d_name) /\
    os_add_rule os file = 0.
Proof.
  intros H.
  assert (Hin : file ∈ ruleset (final os)).
  { destruct H as [H|(A & HA & H)]; [exact H|].
    now rewrite <- (domain_final _ _ HA). }
  apply allow_list_sound in Hin as (path & Hatt & Hfile & Hopen & Hadd).
  apply rule_attempts_origin in Hatt
    as (s & dir & entries & d_name & HPATH & Hdir & Hdopen & Hname & -> & Hok).
  exists s, dir, entries, d_name. auto 10.
Qed.

Lemma final_allow_list_sound_witness :
  exists s dir entries d_name,
    os_PATH demo_os = Some s /\ In dir (path_dirs s) /\
    os_opendir demo_os dir = Some entries /\ In d_name entries /\
    2002 = os_file demo_os (dir +:+ "/" +:+ d_name) /\
    allowable demo_os (dir +:+ "/" +:+ d_name) = true /\
    0 <= os_open demo_os (dir +:+ "/" +:+ d_name) /\
    os_add_rule demo_os 2002 = 0.
Proof.
  apply (final_allow_list_sound demo_os 2002).
  left. vm_compute. reflexivity.
Defined.

(** A rule that is accepted shows in the final ruleset and domain. *)
Lemma accepted_rule_is_final (os : OS) (s dir d_name : string)
  (entries : list string) :
  0 <= os_create_ruleset os ->
  os_PATH os = Some s -> s <> EmptyString ->
  os_strdup os = true ->
  In dir (path_dirs s) -> os_opendir os dir = Some entries ->
  In d_name entries ->
  allowable os (dir +:+ "/" +:+ d_name) = true ->
  0 <= os_open os (dir +:+ "/" +:+ d_name) ->
  os_add_rule os (os_file os (dir +:+ "/" +:+ d_name)) = 0 ->
  os_file os (dir +:+ "/" +:+ d_name) ∈ ruleset (final os) /\
  (result os = Done tt ->
   exists A, domain (final os) = Some A /\
             os_file os (dir +:+ "/" +:+ d_name) ∈ A).
Proof.
  intros Hfd HPATH Hs Hdup Hdir Hopendir Hname Hok Hopen Hadd.
  assert (Hin : os_file os (dir +:+ "/" +:+ d_name) ∈ ruleset (final os)).
  { assert (Hatt : In (dir +:+ "/" +:+ d_name) (rule_attempts (trace os))).
    { run_cases os; try lia; try congruence;
        try (exfalso; destruct H0; congruence).
      all: assert (s0 = s) by congruence; subst s0.
      all: rewrite !rule_attempts_app, !in_app_iff; right; left;
        apply enumeration_attempts; eauto 8. }
    apply rule_attempts_open in Hatt as [fd Hatt].
    apply in_split in Hatt as (before & after & E).
    destruct (proj1 (trace_contexts os) _ _ _ E _ _ eq_refl)
      as (_ & -> & Hafter).
    destruct (Hafter Hopen) as (rest & ->).
    unfold final. rewrite ruleset_kernel_run.
    apply elem_of_union_r, granted_In.
    exists (os_create_ruleset os). rewrite E, <- Hadd.
    apply in_or_app. right. right. now left. }
  split; [exact Hin|].
  intros Hret. exists (ruleset (final os)). split; [|exact Hin].
  destruct (domain (final os)) as [A|] eqn:HA.
  - now rewrite (domain_final _ _ HA).
  - exfalso. revert Hret HA. unfold final. run_cases os; try discriminate.
    intros _. rewrite !kernel_run_app, kernel_after_enumeration. simpl.
    discriminate.
Qed.


(** X8.  What the restricted process may execute, from below.  In a run
    that reaches the enumeration, the file behind every [dir/name] that
    passes the tests of [scan_entry], that [open] opens and that the
    kernel accepts a rule for is in the ruleset at the end; when the
    constructor returns, it is in the domain of the process. *)
Theorem final_allow_list_complete (os : OS) (s dir d_name : string)
  (entries : list string) :
  0 <= os_create_ruleset os ->
  os_PATH os = Some s -> s <> EmptyString ->
  os_strdup os = true ->
  In dir (path_dirs s) -> os_opendir os dir = Some entries ->
  In d_name entries ->
  allowable os (dir +:+ "/" +:+ d_name) = true ->
  0 <= os_open os (dir +:+ "/" +:+ d_name) ->
  os_add_rule os (os_file os (dir +:+ "/" +:+ d_name)) = 0 ->
  os_file os (dir +:+ "/" +:+ d_name) ∈ ruleset (final os) /\
  (result os = Done tt ->
   exists A, domain (final os) = Some A /\
             os_file os (dir +:+ "/" +:+ d_name) ∈ A).
Proof. apply accepted_rule_is_final. Qed.

Lemma final_allow_list_complete_witness :
  1001 ∈ ruleset (final demo_os) /\
  exists A, domain (final demo_os) = Some A /\ 1001 ∈ A.
Proof.
  destruct (final_allow_list_complete demo_os
              ":/tmp/bin:/nonexistent::/bin" "/tmp/bin" "tool"
              ["."; "tool"; "ls"; "myshell"; "README"; "gone"; "dangling";
               "racy"; "odd"])
    as [Hin Hdom];
    [vm_compute; discriminate|reflexivity|discriminate|reflexivity
    |vm_compute; tauto|reflexivity|simpl; tauto|reflexivity
    |vm_compute; discriminate|reflexivity|].
  split; [exact Hin|apply Hdom; reflexivity].
Defined.

(** X9.  The limitation the source states for [DENIED_SHELLS]: the
    denylist goes by path.  When an entry of a PATH directory names the
    same file as a shell of the list, under a literal and a canonical path
    that are not on the list (a hard link, a copy on the same inode), and
    passes the other tests, the constructor returns with that shell's
    file in the domain: the process may execute it. *)
Theorem denylist_is_by_path (os : OS) (s dir d_name shell : string)
  (entries : list string) :
  0 <= os_create_ruleset os ->
  os_PATH os = Some s -> s <> EmptyString ->
  os_strdup os = true ->
  os_prctl os = 0 -> os_restrict_self os = 0 ->
  In dir (path_dirs s) -> os_opendir os dir = Some entries ->
  In d_name entries ->
  In shell DENIED_SHELLS ->
  os_file os (dir +:+ "/" +:+ d_name) = os_file os shell ->
  allowable os (dir +:+ "/" +:+ d_name) = true ->
  0 <= os_open os (dir +:+ "/" +:+ d_name) ->
  os_add_rule os (os_file os shell) = 0 ->
  result os = Done tt /\
  exists A, domain (final os) = Some A /\ os_file os shell ∈ A.
Proof.
  intros Hfd HPATH Hs Hdup Hlock Hcommit Hdir Hopendir Hname _ Hsame Hok
    Hopen Hadd.
  assert (Hret : result os = Done tt).
  { run_cases os; try reflexivity; try lia; try congruence.
    exfalso. destruct H0; congruence. }
  split; [exact Hret|]. rewrite <- Hsame in *.
  now apply (accepted_rule_is_final os s dir d_name entries).
Qed.

Lemma denylist_is_by_path_witness :
  result hardlink_os = Done tt /\
  exists A, domain (final hardlink_os) = Some A /\
            os_file hardlink_os "/bin/bash" ∈ A.
Proof.
  apply (denylist_is_by_path hardlink_os "/tmp/bin" "/tmp/bin" "mysh"
           "/bin/bash" ["mysh"]);
    try reflexivity; try discriminate.
  - vm_compute. tauto.
  - simpl. tauto.
  - simpl. tauto.
Defined.

(** ** The loops *)

Lemma readdir_context_extensible os fd : extensible (readdir_context os fd).
Proof.
  intros l r before x after H dir d_name Hx.
  destruct (H dir d_name Hx) as (rest & ->).
  exists (rest ++ r). now rewrite app_assoc.
Qed.

Lemma no_readdir_context os fd t :
  forallb (fun e => match e with Ev_readdir _ _ => false | _ => true end) t
  = true ->
  everywhere (readdir_context os fd) t.
Proof.
  intros H before x after ->.
  rewrite forallb_app in H. apply andb_prop in H as [_ H].
  simpl in H. apply andb_prop in H as [H _].
  intros dir d_name ->. discriminate H.
Qed.

Lemma everywhere_cons P e t :
  extensible P -> P [] e t -> everywhere P t -> everywhere P (e :: t).
Proof.
  intros Hext Hhead Ht before x after E.
  destruct before as [|b before]; simpl in E; injection E as <- E.
  - now subst t.
  - rewrite <- (app_nil_r after). apply (Hext [e] [] before x after).
    now apply Ht.
Qed.

Lemma trace_readdir os :
  everywhere (readdir_context os (os_create_ruleset os)) (trace os).
Proof.
  assert (Hext := readdir_context_extensible os (os_create_ruleset os)).
  assert (Hentry : forall dir d_name,
    everywhere (readdir_context os (os_create_ruleset os))
      (Ev_readdir dir d_name
       :: fst (scan_entry os (os_create_ruleset os) dir d_name))).
  { intros dir d_name. apply everywhere_cons; [exact Hext| |].
    - intros d n [= <- <-]. exists []. now rewrite app_nil_r.
    - apply no_readdir_context.
      pose proof (scan_entry_entry_events os (os_create_ruleset os)
                    dir d_name) as H.
      apply forallb_forall. intros e He.
      apply (forallb_In _ _ _ H) in He. now destruct e. }
  assert (Hdir : forall dir,
    everywhere (readdir_context os (os_create_ruleset os))
      (fst (scan_dir os (os_create_ruleset os) dir))).
  { intros dir. rewrite scan_dir_eq. cbn [fst].
    destruct (os_opendir os dir) as [entries|];
      [|now apply no_readdir_context].
    change (Ev_opendir dir true :: ?t) with ([Ev_opendir dir true] ++ t).
    repeat apply everywhere_app; try exact Hext;
      try (now apply no_readdir_context).
    apply everywhere_flat_map; [exact Hext|]. intros d_name _. apply Hentry. }
  assert (Henum : forall s,
    everywhere (readdir_context os (os_create_ruleset os))
      (enumeration os (os_create_ruleset os) s)).
  { intros s. apply everywhere_flat_map; [exact Hext|].
    intros dir _. apply Hdir. }
  run_cases os; try (now apply no_readdir_context).
  all: repeat apply everywhere_app; try exact Hext; try apply Henum;
    now apply no_readdir_context.
Qed.

(** X10.  Every entry [readdir] yields is processed, at once and in the
    order of the directory: in every run the calls that follow a
    [readdir] are the calls of [scan_entry] for its entry, with the
    ruleset of the run.  No entry is put off, skipped for the sake of
    another, or handled twice in one visit. *)
Theorem entries_processed_in_order (os : OS) (before after : list event)
  (dir d_name : string) :
  trace os = before ++ Ev_readdir dir d_name :: after ->
  exists rest,
    after = fst (scan_entry os (os_create_ruleset os) dir d_name) ++ rest.
Proof. intros E. now apply (trace_readdir os _ _ _ E). Qed.

Lemma entries_processed_in_order_witness :
  exists rest,
    skipn 7 (trace demo_os) =
    fst (scan_entry demo_os 3 "/tmp/bin" "tool") ++ rest.
Proof.
  apply (entries_processed_in_order demo_os (firstn 6 (trace demo_os))
           (skipn 7 (trace demo_os)) "/tmp/bin" "tool").
  reflexivity.
Defined.

(** X11.  Enumerating [a:b] is enumerating [a], then [b]: the loop over
    the directories keeps nothing from one directory to the next, visits
    them in the order of PATH and visits a directory named twice
    twice. *)
Theorem path_loop_splits (os : OS) (fd : Z) (a b : string) :
  for_each (path_dirs (a +:+ ":" +:+ b)) (scan_dir os fd) =
  (for_each (path_dirs a) (scan_dir os fd) ;;
   for_each (path_dirs b) (scan_dir os fd)).
Proof.
  rewrite !enumeration_eq. unfold bind, enumeration.
  now rewrite path_dirs_app, flat_map_app.
Qed.

(** X12.  The bound of the path buffer is exact.  [scan_entry] calls
    [stat], on the whole [dir/name], exactly when [dir/name] has fewer
    than [PATH_MAX] bytes: a path of [PATH_MAX - 1] bytes is examined, one
    of [PATH_MAX] bytes is not. *)
Theorem scan_entry_bound (os : OS) (fd : Z) (dir d_name : string) :
  Z.of_nat (String.length (dir +:+ "/" +:+ d_name)) < PATH_MAX <->
  exists rest,
    fst (scan_entry os fd dir d_name) =
    Ev_stat (dir +:+ "/" +:+ d_name) (os_stat os (dir +:+ "/" +:+ d_name))
    :: rest.
Proof.
  split.
  - intros Hlen. scan_cases; subst; try (exfalso; lia);
      rewrite ?Hstat; eexists; reflexivity.
  - intros [rest E].
    destruct (Z.ltb_spec (Z.of_nat (String.length (dir +:+ "/" +:+ d_name)))
                PATH_MAX) as [Hlt|Hge]; [exact Hlt|].
    rewrite (scan_entry_too_long os fd dir d_name Hge) in E. discriminate E.
Qed.

Lemma scan_entry_bound_witness :
  Z.of_nat (String.length (edge_dir +:+ "/" +:+ "x")) = PATH_MAX - 1 /\
  exists rest,
    fst (scan_entry demo_os 3 edge_dir "x") =
    Ev_stat (edge_dir +:+ "/" +:+ "x")
            (os_stat demo_os (edge_dir +:+ "/" +:+ "x")) :: rest.
Proof.
  split; [vm_compute; reflexivity|].
  apply (scan_entry_bound demo_os 3 edge_dir "x"). vm_compute. reflexivity.
Defined.

(** ** A PATH of separators *)

Lemma path_dirs_separators n : path_dirs (fill n ":") = [].
Proof.
  rewrite path_dirs_components.
  induction n as [|n IH]; [reflexivity|].
  cbn [fill components]. now rewrite Ascii.eqb_refl.
Qed.

(** X13.  The test for an empty PATH looks at the first byte only.  A PATH
    made of one or more colons is not empty, yet it names no directory:
    when the calls that can be fatal succeed the constructor opens no
    directory, adds no rule and returns, and the process is restricted to
    the empty set of files. *)
Theorem separators_only_PATH (os : OS) (n : nat) :
  0 <= os_create_ruleset os ->
  os_PATH os = Some (fill (S n) ":") ->
  os_strdup os = true ->
  os_prctl os = 0 -> os_restrict_self os = 0 ->
  result os = Done tt /\
  opened_dirs (trace os) = [] /\
  rule_attempts (trace os) = [] /\
  domain (final os) = Some ∅.
Proof.
  intros Hfd HPATH Hdup Hlock Hcommit.
  assert (Henum : enumeration os (os_create_ruleset os) (fill (S n) ":") = []).
  { unfold enumeration. now rewrite path_dirs_separators. }
  run_cases os; try lia; try congruence.
  - exfalso. destruct H0 as [H0|H0]; rewrite H0 in HPATH;
      simpl in HPATH; discriminate HPATH.
  - assert (s = fill (S n) ":") by congruence. subst s.
    rewrite Henum. repeat split; reflexivity.
Qed.

Lemma separators_only_PATH_witness :
  result (demo_with 3 (Some "::") true 0 0) = Done tt /\
  domain (final (demo_with 3 (Some "::") true 0 0)) = Some ∅.
Proof.
  destruct (separators_only_PATH (demo_with 3 (Some "::") true 0 0) 1)
    as (Hret & _ & _ & Hdom);
    [vm_compute; discriminate|reflexivity|reflexivity|reflexivity
    |reflexivity|].
  split; assumption.
Defined.
